(** * Verification of the concept registry, scoring and gateway logic of
    llm_keyword_manager (app/db/crud.py, app/services/concept_service.py,
    app/services/llm_service.py).

    Floats are modelled as rationals [Q]; MongoDB documents as records;
    the concept collection as a [gmap] from object ids to documents;
    store and provider responses that the code only awaits are inputs. *)

From Stdlib Require Import QArith Qminmax ZArith Lia Lqa.
From Stdlib Require Import String Ascii Sorting.Sorted.
From stdpp Require Import base list gmap strings pretty.

Open Scope Q_scope.

(* ------------------------------------------------------------------ *)
(** ** app/core/config.py : Settings (the service logic parameters) *)

Record Settings := mkSettings {
  LOW_YIELD_THRESHOLD : Q;
  KEYWORD_DEACTIVATION_THRESHOLD : Q;
  SCORE_DECAY_FACTOR : Q;
  CONFIDENCE_DECAY_ENABLED : bool;
  CONFIDENCE_DECAY_PERIOD_DAYS : Z;
  CONFIDENCE_TIME_DECAY_FACTOR : Q
}.

(** The defaults of [Settings]. *)
Definition settings_default : Settings := {|
  LOW_YIELD_THRESHOLD := 3 # 10;
  KEYWORD_DEACTIVATION_THRESHOLD := 2 # 10;
  SCORE_DECAY_FACTOR := 95 # 100;
  CONFIDENCE_DECAY_ENABLED := true;
  CONFIDENCE_DECAY_PERIOD_DAYS := 14;
  CONFIDENCE_TIME_DECAY_FACTOR := 98 # 100
|}.

(** The pydantic field constraints ([ge], [le], [gt], [lt]) of [Settings]. *)
Definition settings_valid (s : Settings) : Prop :=
  0 <= LOW_YIELD_THRESHOLD s <= 1 /\
  0 <= KEYWORD_DEACTIVATION_THRESHOLD s <= 1 /\
  0 < SCORE_DECAY_FACTOR s < 1 /\
  (0 < CONFIDENCE_DECAY_PERIOD_DAYS s)%Z /\
  0 < CONFIDENCE_TIME_DECAY_FACTOR s < 1.

(** [SUPPORTED_LANGUAGES = ["en", "fr", "ar"]] *)
Definition SUPPORTED_LANGUAGES : list string := ["en"; "fr"; "ar"].

(* ------------------------------------------------------------------ *)
(** ** app/db/models.py, app/api/schemas.py : the concept document *)

Inductive TranslationStatus := ACTIVE | INACTIVE.

Definition status_eqb (a b : TranslationStatus) : bool :=
  match a, b with
  | ACTIVE, ACTIVE | INACTIVE, INACTIVE => true
  | _, _ => false
  end.

(** Timestamps ([datetime]) as seconds. *)
Definition Timestamp := Z.

(** [ConceptInDB] / [ConceptRead]. *)
Record Concept := mkConcept {
  id : nat;
  translations : gmap string string;
  categories : list string;
  confidence_score : Q;
  historical_yield : Q;
  status : TranslationStatus;
  usage_count : nat;
  last_used_at : option Timestamp;
  last_positive_feedback_at : option Timestamp;
  created_at : Timestamp;
  updated_at : Timestamp
}.

(** The concept collection, keyed by [_id]. *)
Abbreviation Collection := (gmap nat Concept).

(** [ConceptFeedbackPayload]. *)
Record ConceptFeedbackPayload := mkPayload {
  fb_concept_id : nat;
  fb_language : string;
  fb_relevance_metric : Q;
  fb_source : string;
  fb_term : option string
}.

(* ------------------------------------------------------------------ *)
(** ** Python builtins used on floats *)

(** Python [min(a, b)] returns [a] unless [b < a]; [max(a, b)] returns [a]
    unless [b > a]. *)
Definition py_min (a b : Q) : Q := if Qlt_le_dec b a then b else a.
Definition py_max (a b : Q) : Q := if Qlt_le_dec a b then b else a.

(** Log records emitted through [logger]. *)
Inductive LogLevel := DEBUG | INFO | WARNING | ERROR.
Record LogEntry := mkLog { log_level : LogLevel; log_msg : string }.

(* ------------------------------------------------------------------ *)
(** ** Feedback: ConceptService.process_feedback and crud.apply_feedback_update *)

(** The [update_payload] dict built by [process_feedback]. *)
Record FeedbackUpdate := mkFeedbackUpdate {
  upd_confidence_score : Q;
  upd_historical_yield : Q;
  upd_status : TranslationStatus;
  upd_last_positive_feedback_at : option Timestamp
}.

Section Feedback.
Variable settings : Settings.

Definition is_positive_feedback (relevance_metric : Q) : bool :=
  Qle_bool (LOW_YIELD_THRESHOLD settings) relevance_metric.

(** [new_score = min(s * 1.05, 1.0) if positive else s * SCORE_DECAY_FACTOR;
     new_score = max(0.0, new_score)] *)
Definition feedback_new_score (current_score relevance_metric : Q) : Q :=
  let new_score :=
    if is_positive_feedback relevance_metric
    then py_min (current_score * (105 # 100)) 1
    else current_score * SCORE_DECAY_FACTOR settings in
  py_max 0 new_score.

(** [new_yield = m if usage == 0 else (y*usage + m) / (usage + 1);
     new_yield = max(0.0, min(1.0, new_yield))] *)
Definition feedback_new_yield (current_yield : Q) (current_usage : nat)
    (relevance_metric : Q) : Q :=
  let u := inject_Z (Z.of_nat current_usage) in
  let new_yield :=
    match current_usage with
    | O => relevance_metric
    | S _ => (current_yield * u + relevance_metric) / (u + 1)
    end in
  py_max 0 (py_min 1 new_yield).

(** The two status branches of [process_feedback]. *)
Definition feedback_new_status (current_status : TranslationStatus)
    (new_score : Q) : TranslationStatus :=
  let th := KEYWORD_DEACTIVATION_THRESHOLD settings in
  if Qlt_le_dec new_score th then
    (if status_eqb current_status ACTIVE then INACTIVE else current_status)
  else
    (if status_eqb current_status INACTIVE then ACTIVE else current_status).

(** The [update_payload] of [process_feedback] for a stored concept. *)
Definition feedback_update_payload (concept : Concept) (relevance_metric : Q)
    (now : Timestamp) : FeedbackUpdate :=
  let new_score := feedback_new_score (confidence_score concept) relevance_metric in
  {| upd_confidence_score := new_score;
     upd_historical_yield :=
       feedback_new_yield (historical_yield concept) (usage_count concept)
         relevance_metric;
     upd_status := feedback_new_status (status concept) new_score;
     upd_last_positive_feedback_at :=
       if is_positive_feedback relevance_metric then Some now else None |}.

(** The document update of [crud.apply_feedback_update]:
    [{"$set": updates + updated_at + last_used_at, "$inc": {"usage_count": 1}}]. *)
Definition apply_update_doc (c : Concept) (u : FeedbackUpdate) (now : Timestamp)
    : Concept :=
  {| id := id c;
     translations := translations c;
     categories := categories c;
     confidence_score := upd_confidence_score u;
     historical_yield := upd_historical_yield u;
     status := upd_status u;
     usage_count := S (usage_count c);
     last_used_at := Some now;
     last_positive_feedback_at :=
       match upd_last_positive_feedback_at u with
       | Some t => Some t
       | None => last_positive_feedback_at c
       end;
     created_at := created_at c;
     updated_at := now |}.

(** [crud.apply_feedback_update]: [update_one({"_id": id}, ...)], returns
    [matched]. *)
Definition apply_feedback_update (db : Collection) (concept_id : nat)
    (u : FeedbackUpdate) (now : Timestamp) : Collection * bool :=
  match db !! concept_id with
  | Some c => (<[concept_id := apply_update_doc c u now]> db, true)
  | None => (db, false)
  end.

(** Python [s.lower()] on ASCII letters. *)
Definition lower_ascii (c : ascii) : ascii :=
  let n := nat_of_ascii c in
  if (65 <=? n)%nat && (n <=? 90)%nat then ascii_of_nat (n + 32) else c.

Fixpoint lower (s : string) : string :=
  match s with
  | EmptyString => EmptyString
  | String c s' => String (lower_ascii c) (lower s')
  end.

(** [ConceptService.process_feedback]: returns the new collection, the
    returned concept and the log records written. *)
Definition process_feedback (db : Collection) (feedback : ConceptFeedbackPayload)
    (now : Timestamp) : Collection * option Concept * list LogEntry :=
  let concept_id := fb_concept_id feedback in
  match db !! concept_id with
  | None => (db, None, [mkLog WARNING "Feedback for non-existent concept"])
  | Some concept =>
      let check_logs :=
        match translations concept !! fb_language feedback with
        | None => [mkLog WARNING "Feedback lang term not found for concept"]
        | Some stored =>
            match fb_term feedback with
            | Some t =>
                (* [elif feedback.term and ...]: an empty term is falsy *)
                if String.eqb t EmptyString || String.eqb (lower t) (lower stored) then []
                else [mkLog WARNING "Feedback term mismatch"]
            | None => []
            end
        end in
      let u := feedback_update_payload concept (fb_relevance_metric feedback) now in
      let '(db', success) := apply_feedback_update db concept_id u now in
      if success
      then (db', db' !! concept_id,
            check_logs ++ [mkLog INFO "Concept-level feedback applied"])
      else (db', None,
            check_logs ++ [mkLog ERROR "Failed concept-level feedback update"])
  end.

End Feedback.

(* ------------------------------------------------------------------ *)
(** ** Time decay: ConceptService.apply_confidence_decay *)

Section Decay.
Variable settings : Settings.

(** [cutoff_time = now - timedelta(days=CONFIDENCE_DECAY_PERIOD_DAYS)] *)
Definition decay_cutoff (now : Timestamp) : Timestamp :=
  (now - CONFIDENCE_DECAY_PERIOD_DAYS settings * 86400)%Z.

(** [current_status == ACTIVE and (last_positive is None or
    last_positive < cutoff_time)] *)
Definition decay_applies (cutoff : Timestamp) (c : Concept) : bool :=
  status_eqb (status c) ACTIVE &&
  match last_positive_feedback_at c with
  | None => true
  | Some t => (t <? cutoff)%Z
  end.

(** [decayed_score = max(0.0, current_score * CONFIDENCE_TIME_DECAY_FACTOR)] *)
Definition decay_score (current_score : Q) : Q :=
  py_max 0 (current_score * CONFIDENCE_TIME_DECAY_FACTOR settings).

(** [new_status = INACTIVE if decayed_score < KEYWORD_DEACTIVATION_THRESHOLD
    else ACTIVE] *)
Definition decay_status (decayed_score : Q) : TranslationStatus :=
  if Qlt_le_dec decayed_score (KEYWORD_DEACTIVATION_THRESHOLD settings)
  then INACTIVE else ACTIVE.

(** The loop body for one fetched concept: [Some (decayed_score, new_status)]
    when an [apply_time_decay_to_concept] task is queued for it. *)
Definition decay_decision (cutoff : Timestamp) (c : Concept)
    : option (Q * TranslationStatus) :=
  if decay_applies cutoff c then
    let current_score := confidence_score c in
    let decayed_score := decay_score current_score in
    let new_status := decay_status decayed_score in
    if negb (Qeq_bool decayed_score current_score)
       || negb (status_eqb new_status (status c))
    then Some (decayed_score, new_status)
    else None
  else None.

(** [crud.get_all_concepts_for_decay]: [find({"status": "active"})]. *)
Definition get_all_concepts_for_decay (db : Collection) : list (nat * Concept) :=
  filter (fun ic => status_eqb (status ic.2) ACTIVE = true) (map_to_list db).

(** The [decay_tasks] list: one [(concept_id, decayed_score, new_status)]
    per queued write. *)
Definition decay_tasks (db : Collection) (cutoff : Timestamp)
    : list (nat * (Q * TranslationStatus)) :=
  omap (fun ic => match decay_decision cutoff ic.2 with
                  | Some d => Some (ic.1, d)
                  | None => None
                  end)
       (get_all_concepts_for_decay db).

(** The document after [$set confidence_score, status, updated_at]. *)
Definition decayed_doc (c : Concept) (decayed_score : Q)
    (new_status : TranslationStatus) (now : Timestamp) : Concept :=
  {| id := id c; translations := translations c; categories := categories c;
     confidence_score := decayed_score; historical_yield := historical_yield c;
     status := new_status; usage_count := usage_count c;
     last_used_at := last_used_at c;
     last_positive_feedback_at := last_positive_feedback_at c;
     created_at := created_at c; updated_at := now |}.

(** [crud.apply_time_decay_to_concept]:
    [$set confidence_score, status, updated_at]; returns [modified]. *)
Definition apply_time_decay_to_concept (db : Collection) (concept_id : nat)
    (decayed_score : Q) (new_status : TranslationStatus) (now : Timestamp)
    : Collection * bool :=
  match db !! concept_id with
  | Some c => (<[concept_id := decayed_doc c decayed_score new_status now]> db, true)
  | None => (db, false)
  end.

Fixpoint run_decay_tasks (db : Collection)
    (tasks : list (nat * (Q * TranslationStatus))) (now : Timestamp)
    : Collection * nat :=
  match tasks with
  | [] => (db, 0%nat)
  | (i, (sc, st)) :: rest =>
      let '(db1, ok) := apply_time_decay_to_concept db i sc st now in
      let '(db2, n) := run_decay_tasks db1 rest now in
      (db2, if ok then S n else n)
  end.

(** [ConceptService.apply_confidence_decay]: the new collection and
    [decay_count]. *)
Definition apply_confidence_decay (db : Collection) (now : Timestamp)
    : Collection * nat :=
  if negb (CONFIDENCE_DECAY_ENABLED settings) then (db, 0%nat)
  else run_decay_tasks db (decay_tasks db (decay_cutoff now)) now.

End Decay.

(* ------------------------------------------------------------------ *)
(** ** Raised exceptions *)

(** The exception classes the store code distinguishes: pymongo's
    [DuplicateKeyError], [OperationFailure], [ConnectionFailure] (store
    unavailable, incl. [ServerSelectionTimeoutError]), the [RuntimeError]
    raised by [create_concept] itself, and any other exception. *)
Inductive PyExc :=
  | DuplicateKeyError | OperationFailure | ConnectionFailure
  | RuntimeError | OtherError.

Definition pyexc_eqb (a b : PyExc) : bool :=
  match a, b with
  | DuplicateKeyError, DuplicateKeyError | OperationFailure, OperationFailure
  | ConnectionFailure, ConnectionFailure | RuntimeError, RuntimeError
  | OtherError, OtherError => true
  | _, _ => false
  end.

(** A computation that returns a value or raises. *)
Inductive Result (A : Type) := Ok (a : A) | Raise (e : PyExc).
Arguments Ok {A} a.
Arguments Raise {A} e.

(* ------------------------------------------------------------------ *)
(** ** crud.create_concept *)

(** [insert_result] is the outcome of [collection.insert_one(concept_dict)]
    (the inserted id, or the exception it raised); [find_one] the outcome
    of [collection.find_one({"_id": inserted_id})]. *)
Definition create_concept (insert_result : Result nat)
    (find_one : nat -> Result (option Concept)) : Result (option Concept) :=
  (* the [try] body *)
  let body :=
    match insert_result with
    | Ok inserted_id =>
        match find_one inserted_id with
        | Ok (Some created_doc) => Ok (Some created_doc)
        | Ok None => Raise RuntimeError
        | Raise e => Raise e
        end
    | Raise e => Raise e
    end in
  (* [except DuplicateKeyError: return None]; every other handler re-raises *)
  match body with
  | Raise DuplicateKeyError => Ok None
  | Raise e => Raise e
  | Ok r => Ok r
  end.

(* ------------------------------------------------------------------ *)
(** ** ConceptService._process_single_generated_term_option2 *)

(** The responses the term pipeline awaits. Reads are indexed by the order
    of the call of their kind, so that other writers may change the
    collection between two reads. *)
Record TermIO := mkTermIO {
  (** the [k]-th [collection.find_one({"translations.en": t})] issued by
      [crud.get_concept_by_english_term] ([None] also when it raised: the
      CRUD function returns [None] on error) *)
  io_find_by_en : nat -> string -> option Concept;
  (** [collection.insert_one] for a new concept with this EN term *)
  io_insert_one : string -> Result nat;
  (** [collection.find_one({"_id": id})] right after the insert *)
  io_find_one : nat -> Result (option Concept);
  (** the [k]-th [crud.get_concept_by_id] ([None] on error) *)
  io_get_by_id : nat -> nat -> option Concept;
  (** [llm_service.translate_term(term, source, target)] *)
  io_translate_term : string -> string -> string -> option string
}.

(** [crud.get_concept_by_english_term]: queries the lower-cased term. *)
Definition get_concept_by_english_term (io : TermIO) (k : nat) (english_term : string)
    : option Concept :=
  io_find_by_en io k (lower english_term).

(** Outcome of the "Find or Create Concept" block. *)
Inductive FindOrCreate :=
  | FOC_Found (concept_id : nat) (created : bool)
  | FOC_ConsistencyError
  | FOC_DbError (e : PyExc).

(** Steps 1-3 of the find-or-create block. *)
Definition find_or_create (io : TermIO) (english_term : string) : FindOrCreate :=
  match get_concept_by_english_term io 0 english_term with
  | Some concept => FOC_Found (id concept) false
  | None =>
      match create_concept (io_insert_one io english_term) (io_find_one io) with
      | Ok (Some created_concept_obj) => FOC_Found (id created_concept_obj) true
      | Ok None =>
          match get_concept_by_english_term io 1 english_term with
          | Some concept => FOC_Found (id concept) false
          | None => FOC_ConsistencyError
          end
      | Raise e => FOC_DbError e
      end
  end.

(** The English anchor: the term itself for ["en"], else its translation. *)
Definition anchor_term (io : TermIO) (original_term original_language : string)
    : option string :=
  if String.eqb original_language "en" then Some original_term
  else match io_translate_term io original_term original_language "en" with
       | Some r => if String.eqb r EmptyString then None else Some (lower r)
       | None => None
       end.

Definition MSG_CONSISTENCY : string :=
  "CRITICAL: EN term caused DuplicateKeyError on create, but get_concept_by_english_term failed immediately after. DB consistency issue?".

(** The success flag and the log records of the term pipeline; the
    category and translation writes after the find-or-create block cannot
    change the flag (their errors are caught) and are not modelled. *)
Definition process_single_generated_term (io : TermIO) (llm_available : bool)
    (original_term original_language : string) : bool * list LogEntry :=
  if negb llm_available then (false, [mkLog ERROR "LLM model unavailable"])
  else
  match anchor_term io original_term original_language with
  | None => (false, [mkLog WARNING "Failed anchor translation"])
  | Some english_term =>
      match find_or_create io english_term with
      | FOC_ConsistencyError => (false, [mkLog ERROR MSG_CONSISTENCY])
      | FOC_DbError _ =>
          (false, [mkLog ERROR "DB error during find/create concept logic"])
      | FOC_Found concept_id created =>
          if created then (true, [])
          else match io_get_by_id io 1 concept_id with
               | Some _ => (true, [])
               | None => (false, [mkLog ERROR "Concept disappeared"])
               end
      end
  end.

(* ------------------------------------------------------------------ *)
(** ** LLMService._apply_rate_limit_delay *)

(** [MIN_SECONDS_BETWEEN_CALLS = 4.1] *)
Definition MIN_SECONDS_BETWEEN_CALLS : Q := 41 # 10.

(** One call under [_api_call_lock]: [now] is the clock read on entry,
    [now_after_sleep] the clock read after [asyncio.sleep]. Returns the
    sleep duration (if any) and the new [last_api_call_time]. *)
Definition apply_rate_limit_delay (last_api_call_time : option Q)
    (now now_after_sleep : Q) : option Q * Q :=
  match last_api_call_time with
  | Some last =>
      let wait_needed := MIN_SECONDS_BETWEEN_CALLS - (now - last) in
      if Qlt_le_dec 0 wait_needed then (Some wait_needed, now_after_sleep)
      else (None, now)
  | None => (None, now)
  end.

(** The lock serializes the calls: a run is the sequence of calls in lock
    order, each with its two clock readings. Returns the recorded start
    times. *)
Fixpoint rate_limiter_run (last_api_call_time : option Q) (calls : list (Q * Q))
    : list Q :=
  match calls with
  | [] => []
  | (now, now_after_sleep) :: rest =>
      let stamp := snd (apply_rate_limit_delay last_api_call_time now now_after_sleep) in
      stamp :: rate_limiter_run (Some stamp) rest
  end.

(** Clock readings of a run: the clock never goes back across calls, and
    [asyncio.sleep(w)] lets at least [w] seconds pass. *)
Inductive clock_readings_ok : option Q -> list (Q * Q) -> Prop :=
  | readings_nil last : clock_readings_ok last []
  | readings_cons last now now_after_sleep rest :
      (forall l, last = Some l -> l <= now) ->
      (forall w, fst (apply_rate_limit_delay last now now_after_sleep) = Some w ->
                 now + w <= now_after_sleep) ->
      clock_readings_ok
        (Some (snd (apply_rate_limit_delay last now now_after_sleep))) rest ->
      clock_readings_ok last ((now, now_after_sleep) :: rest).

(* ------------------------------------------------------------------ *)
(** ** LLMService.translate_term *)

(** [LANGUAGE_NAMES] keys. *)
Definition LANGUAGE_NAMES : list string := ["en"; "fr"; "ar"].

Definition in_language_names (code : string) : bool :=
  existsb (String.eqb code) LANGUAGE_NAMES.

(** Python [str.strip()] whitespace (ASCII part). *)
Definition is_py_space (c : ascii) : bool :=
  let n := nat_of_ascii c in
  ((9 <=? n) && (n <=? 13))%nat || ((28 <=? n) && (n <=? 32))%nat.

Definition is_quote (c : ascii) : bool :=
  Ascii.eqb c (ascii_of_nat 34) || Ascii.eqb c "'"%char.

Fixpoint lstrip_list (p : ascii -> bool) (l : list ascii) : list ascii :=
  match l with
  | [] => []
  | c :: r => if p c then lstrip_list p r else l
  end.

(** [s.strip(chars)]: removes the leading and trailing characters in [p]. *)
Definition py_strip (p : ascii -> bool) (s : string) : string :=
  string_of_list_ascii
    (rev (lstrip_list p (rev (lstrip_list p (list_ascii_of_string s))))).

(** [raw_response.strip()], then [.strip] of the double and single quote
    characters, then [.lower()]. *)
Definition normalize_translation (raw_response : string) : string :=
  lower (py_strip is_quote (py_strip is_py_space raw_response)).

(** [translate_term]: [model_available] is [self.model is not None];
    [response_text] is [response.text] of the provider ([None] when
    [_call_gemini] catches an error or finds no text). *)
Definition translate_term (model_available : bool) (response_text : option string)
    (term source_language_code target_language_code : string) : option string :=
  if negb model_available then None
  else if negb (in_language_names source_language_code
                && in_language_names target_language_code) then None
  else
    (* [_call_gemini] returns [response.text.strip()] *)
    match option_map (py_strip is_py_space) response_text with
    | None => None
    | Some raw_response =>
        if String.eqb raw_response EmptyString then None
        else
          let translation := normalize_translation raw_response in
          if String.eqb translation EmptyString then None
          else if String.eqb translation (lower term) then
            (if String.eqb source_language_code target_language_code
             then None else Some translation)
          else Some translation
    end.

(* ------------------------------------------------------------------ *)
(** ** crud.add_or_update_translation_term *)

Definition in_supported_languages (lang : string) : bool :=
  existsb (String.eqb lang) SUPPORTED_LANGUAGES.

(** [$set {"translations.<lang>": term.lower(), "updated_at": now}] on
    [_id]; returns [matched]. *)
Definition add_or_update_translation_term (db : Collection) (concept_id : nat)
    (lang term : string) (now : Timestamp) : Collection * bool :=
  if negb (in_supported_languages lang) then (db, false)
  else
    let term_lower := lower term in
    match db !! concept_id with
    | Some c =>
        (<[concept_id := {| id := id c;
                            translations := <[lang := term_lower]> (translations c);
                            categories := categories c;
                            confidence_score := confidence_score c;
                            historical_yield := historical_yield c;
                            status := status c; usage_count := usage_count c;
                            last_used_at := last_used_at c;
                            last_positive_feedback_at := last_positive_feedback_at c;
                            created_at := created_at c; updated_at := now |}]> db,
         true)
    | None => (db, false)
    end.

(* ------------------------------------------------------------------ *)
(** ** Schema validation: ConceptBase.check_languages, ConceptRead *)

(** [check_languages]: a non-empty dict, a truthy ["en"] term, only
    supported language codes, and no term that is empty after [strip()]. *)
Definition check_languages (v : gmap string string) : bool :=
  negb (bool_decide (v = ∅)) &&
  match v !! "en" with
  | Some e => negb (String.eqb e EmptyString)
  | None => false
  end &&
  forallb (fun lt => in_supported_languages lt.1 &&
                     negb (String.eqb (py_strip is_py_space lt.2) EmptyString))
          (map_to_list v).

(** [ConceptRead.model_validate] on a stored document: [check_languages]
    and the [ge=0.0, le=1.0] bounds of [confidence_score] and
    [historical_yield] (the other fields are well-typed by construction). *)
Definition concept_valid (c : Concept) : bool :=
  check_languages (translations c) &&
  Qle_bool 0 (confidence_score c) && Qle_bool (confidence_score c) 1 &&
  Qle_bool 0 (historical_yield c) && Qle_bool (historical_yield c) 1.

(* ------------------------------------------------------------------ *)
(** ** crud.get_concept_by_id, crud.get_concepts *)

(** [crud.get_concept_by_id]: [None] when no document has this [_id], and
    also when [model_validate] raises (the [except] returns [None]). *)
Definition get_concept_by_id (db : Collection) (concept_id : nat) : option Concept :=
  match db !! concept_id with
  | Some concept_doc => if concept_valid concept_doc then Some concept_doc else None
  | None => None
  end.

(** Insertion into a list ordered by [key], greatest first; an element goes
    after the ones with an equal key. *)
Fixpoint insert_desc {A : Type} (key : A -> Q) (x : A) (l : list A) : list A :=
  match l with
  | [] => [x]
  | y :: r => if Qlt_le_dec (key y) (key x) then x :: l else y :: insert_desc key x r
  end.

(** [.sort(field, DESCENDING)] on a cursor. The store leaves the order of
    documents with equal keys open; here it is fixed by the insertion. *)
Definition sort_desc {A : Type} (key : A -> Q) (l : list A) : list A :=
  fold_right (insert_desc key) [] l.

(** [crud.get_concepts]: [find().sort("created_at", DESCENDING).skip(skip)
    .limit(limit)], [to_list(length=limit)], then every document that fails
    [model_validate] is skipped. *)
Definition get_concepts (db : Collection) (skip limit : nat) : list Concept :=
  let concepts_docs :=
    take limit (drop skip (sort_desc (fun c => inject_Z (created_at c))
                                     (map snd (map_to_list db)))) in
  filter (fun doc => concept_valid doc = true) concepts_docs.

(* ------------------------------------------------------------------ *)
(** ** crud.get_active_keywords and the GET /keywords endpoint *)

(** A result document under [projection = {_id, translations,
    confidence_score}]. *)
Record KeywordDoc := mkKeywordDoc {
  kd_id : nat;
  kd_translations : gmap string string;
  kd_confidence_score : Q
}.

(** The [query] of [get_active_keywords]. Its term condition is a dict
    literal with the key [$ne] twice (first [None], then the empty string);
    the second replaces the first, so the condition is: present and not
    the empty string. *)
Definition active_keyword_match (lang : string) (min_score : Q) (c : Concept) : bool :=
  status_eqb (status c) ACTIVE && Qle_bool min_score (confidence_score c) &&
  match translations c !! lang with
  | Some t => negb (String.eqb t EmptyString)
  | None => false
  end.

(** [crud.get_active_keywords]: [find(query, projection).sort(
    "confidence_score", DESCENDING).limit(limit)], [to_list(length=limit)].
    Its callers pass [limit >= 1] ([KeywordFetchParams]: [gt=0]). *)
Definition get_active_keywords (db : Collection) (lang : string) (min_score : Q)
    (limit : nat) : list KeywordDoc :=
  map (fun ic => {| kd_id := ic.1; kd_translations := translations ic.2;
                    kd_confidence_score := confidence_score ic.2 |})
      (take limit
         (sort_desc (fun ic => confidence_score ic.2)
            (filter (fun ic => active_keyword_match lang min_score ic.2 = true)
                    (map_to_list db)))).

(** [KeywordFetchItem]. *)
Record KeywordFetchItem := mkKeywordFetchItem {
  kw_term : string;
  kw_language : string;
  kw_concept_id : nat;
  kw_concept_display_name : string
}.

(** The loop body of [get_keywords] for one result document: an item when
    the requested term is truthy, nothing (and a warning) otherwise. The
    display name falls back to [f"Concept {concept_id}"]. *)
Definition keyword_item (lang : string) (doc : KeywordDoc) : option KeywordFetchItem :=
  match kd_translations doc !! lang with
  | Some term =>
      if String.eqb term EmptyString then None
      else Some {| kw_term := term; kw_language := lang; kw_concept_id := kd_id doc;
                   kw_concept_display_name :=
                     match kd_translations doc !! "en" with
                     | Some display_name => display_name
                     | None => String.append "Concept " (pretty (kd_id doc))
                     end |}
  | None => None
  end.

(** [GET /keywords] ([endpoints/keywords.py: get_keywords]). *)
Definition get_keywords (db : Collection) (lang : string) (limit : nat) (min_score : Q)
    : list KeywordFetchItem :=
  omap (keyword_item lang) (get_active_keywords db lang min_score limit).

(* ------------------------------------------------------------------ *)
(** ** crud.add_or_update_concept_category *)

(** [$addToSet]: appends the value unless the array already holds it. *)
Definition add_to_set (x : string) (l : list string) : list string :=
  if existsb (String.eqb x) l then l else l ++ [x].

(** [update_one({"_id": id}, {"$addToSet": {"categories": category},
    "$set": {"updated_at": now}})]; returns [matched]. *)
Definition add_or_update_concept_category (db : Collection) (concept_id : nat)
    (category : string) (now : Timestamp) : Collection * bool :=
  match db !! concept_id with
  | Some c =>
      (<[concept_id := {| id := id c; translations := translations c;
                          categories := add_to_set category (categories c);
                          confidence_score := confidence_score c;
                          historical_yield := historical_yield c;
                          status := status c; usage_count := usage_count c;
                          last_used_at := last_used_at c;
                          last_positive_feedback_at := last_positive_feedback_at c;
                          created_at := created_at c; updated_at := now |}]> db,
       true)
  | None => (db, false)
  end.

(* ------------------------------------------------------------------ *)
(** ** LLMService.generate_target_lang_concepts *)

(** Python [s.split(sep)]: the pieces between the separators, empty ones
    included; the empty string splits into one empty piece. *)
Fixpoint split_on (sep : ascii) (s : string) : list string :=
  match s with
  | EmptyString => [EmptyString]
  | String c r =>
      if Ascii.eqb c sep then EmptyString :: split_on sep r
      else match split_on sep r with
           | [] => [String c EmptyString]
           | w :: ws => String c w :: ws
           end
  end.

(** The list comprehension of [generate_target_lang_concepts]: for each
    line of [raw_response.split] on the newline with a truthy [ln.strip()]
    of length above 1, [ln.strip()], then [.strip] of the double and
    single quote characters, then [.lower()]. *)
Definition parse_concept_lines (raw_response : string) : list string :=
  map (fun ln => lower (py_strip is_quote (py_strip is_py_space ln)))
      (filter (fun ln => (negb (String.eqb (py_strip is_py_space ln) EmptyString) &&
                          (1 <? String.length (py_strip is_py_space ln))%nat) = true)
              (split_on (ascii_of_nat 10) raw_response)).

(** [generate_target_lang_concepts]: [response_text] as for
    [translate_term]; the prompt only shapes the provider's answer. *)
Definition generate_target_lang_concepts (model_available : bool)
    (language_code : string) (response_text : option string) : list string :=
  if negb model_available then []
  else if negb (in_language_names language_code) then []
  else
    (* [_call_gemini] returns [response.text.strip()] *)
    match option_map (py_strip is_py_space) response_text with
    | None => []
    | Some raw_response =>
        if String.eqb raw_response EmptyString then []
        else parse_concept_lines raw_response
    end.

(* ------------------------------------------------------------------ *)
(** ** ConceptService.generate_and_store_concepts *)

(** [[term.lower() for term in generated_terms if term]]: the terms handed
    to [_process_single_generated_term_option2]. *)
Definition generation_tasks (generated_terms : list string) : list string :=
  map lower (filter (fun term => String.eqb term EmptyString = false) generated_terms).

(** [isinstance(res, bool) and res] *)
Definition is_true_result (res : Result bool) : bool :=
  match res with
  | Ok true => true
  | _ => false
  end.

(** [generated] is the outcome of [generate_target_lang_concepts] (a value
    or the exception it raised); [process t] the outcome of the task for
    [t], as collected by [asyncio.gather(..., return_exceptions=True)].
    [HEALTH_TOPICS] is a non-empty constant, so its guard never fires. *)
Definition generate_and_store_concepts (llm_available : bool)
    (generated : Result (list string)) (process : string -> Result bool) : nat :=
  if negb llm_available then 0%nat
  else match generated with
       | Raise _ => 0%nat
       | Ok [] => 0%nat
       | Ok generated_terms =>
           let results := map process (generation_tasks generated_terms) in
           length (filter (fun res => is_true_result res = true) results)
       end.

(* ------------------------------------------------------------------ *)
(** ** ConceptService.create_manual_concept and POST /concepts *)

(** [ApiConceptCreate]. *)
Record ApiConceptCreate := mkApiConceptCreate {
  api_english_term : string;
  api_categories : option (list string);
  api_french_term : option string;
  api_arabic_term : option string
}.

(** The [translations] dict built by [create_manual_concept]. *)
Definition manual_translations (concept_in : ApiConceptCreate) : gmap string string :=
  let english_term_lower := lower (api_english_term concept_in) in
  let t0 : gmap string string := {[ "en" := english_term_lower ]} in
  let t1 :=
    match api_french_term concept_in with
    | Some f => if String.eqb f EmptyString then t0 else <["fr" := lower f]> t0
    | None => t0
    end in
  match api_arabic_term concept_in with
  | Some a => if String.eqb a EmptyString then t1 else <["ar" := lower a]> t1
  | None => t1
  end.

(** What [create_manual_concept] raises: the [ValidationError] of
    [ConceptCreateInternal] (a subclass of [ValueError]), or what
    [crud.create_concept] raises. *)
Inductive ManualExc := ValidationError | StoreExc (e : PyExc).

(** [create_manual_concept]: the returned value ([inl]) or the raised
    exception ([inr]). The duplicate check by the lower-cased EN term, then
    [ConceptCreateInternal(...)], whose [check_languages] raises and is not
    caught, then [crud.create_concept]. *)
Definition create_manual_concept (io : TermIO) (concept_in : ApiConceptCreate)
    : option Concept + ManualExc :=
  let english_term_lower := lower (api_english_term concept_in) in
  match get_concept_by_english_term io 0 english_term_lower with
  | Some _ => inl None
  | None =>
      if negb (check_languages (manual_translations concept_in)) then inr ValidationError
      else match create_concept (io_insert_one io english_term_lower) (io_find_one io) with
           | Ok created_concept => inl created_concept
           | Raise e => inr (StoreExc e)
           end
  end.

(** HTTP answers: a status code with a body, or an error status. *)
Inductive HttpResponse (A : Type) := HttpOk (code : nat) (body : A) | HttpError (code : nat).
Arguments HttpOk {A} code body.
Arguments HttpError {A} code.

(** The exception handlers of [main.py]: [value_error_handler] answers a
    [ValueError] with 422, [generic_exception_handler] any other exception
    with 500. The pymongo errors and [RuntimeError] are not [ValueError]s;
    an [OtherError] may be one (a [ValidationError] of
    [ConceptRead.model_validate] re-raised by [crud.create_concept], for
    instance), as [other_is_value_error] says. *)
Definition exception_status (other_is_value_error : bool) (e : ManualExc) : nat :=
  match e with
  | ValidationError => 422
  | StoreExc OtherError => if other_is_value_error then 422 else 500
  | StoreExc _ => 500
  end.

(** [POST /concepts] ([create_concept_manually]). *)
Definition create_concept_manually (other_is_value_error : bool) (io : TermIO)
    (concept_in : ApiConceptCreate) : HttpResponse Concept :=
  match create_manual_concept io concept_in with
  | inl (Some created_concept) => HttpOk 201 created_concept
  | inl None =>
      match get_concept_by_english_term io 1 (lower (api_english_term concept_in)) with
      | Some _ => HttpError 409
      | None => HttpError 500
      end
  | inr e => HttpError (exception_status other_is_value_error e)
  end.

(* ------------------------------------------------------------------ *)
(** ** The translation phase of _process_single_generated_term_option2 *)

(** [languages_to_add] *)
Definition languages_to_add (existing_translations : gmap string string)
    (original_language : string) : list string :=
  filter (fun lang => lang <> "en" /\ lang <> original_language /\
                      existing_translations !! lang = None)
         SUPPORTED_LANGUAGES.

(** [_translate_and_add_term_option2]: [translated lang] is what
    [translate_term(english_term, "en", lang)] returned. *)
Definition translate_and_add_term (llm_available : bool)
    (translated : string -> option string) (db : Collection) (concept_id : nat)
    (target_language : string) (now : Timestamp) : Collection :=
  if negb llm_available then db
  else match translated target_language with
       | Some translated_term =>
           if String.eqb translated_term EmptyString then db
           else (add_or_update_translation_term db concept_id target_language
                   (lower translated_term) now).1
       | None => db
       end.

(** The block after the find-or-create step, for a confirmed [concept_id]:
    the new collection and the value the method returns. The gathered
    writes touch pairwise distinct [translations] keys and are applied in
    list order. *)
Definition translation_phase (llm_available : bool) (translated : string -> option string)
    (db : Collection) (concept_id : nat) (english_term original_term original_language : string)
    (concept_created_now : bool) (now : Timestamp) : Collection * bool :=
  let existing :=
    if concept_created_now then Some {[ "en" := english_term ]}
    else option_map translations (get_concept_by_id db concept_id) in
  match existing with
  | None => (db, false)
  | Some existing_translations =>
      let db1 :=
        if negb (String.eqb original_language "en") &&
           negb (bool_decide (existing_translations !! original_language = Some original_term))
        then (add_or_update_translation_term db concept_id original_language original_term now).1
        else db in
      (fold_left (fun d lang => translate_and_add_term llm_available translated d
                                  concept_id lang now)
                 (languages_to_add existing_translations original_language) db1,
       true)
  end.

(* ------------------------------------------------------------------ *)
(** ** Relations used in the statements below *)

(** The order [sort_desc] produces: [b] may come after [a]. *)
Definition key_ge {A : Type} (key : A -> Q) (a b : A) : Prop := key b <= key a.

(** Two versions of a document agree on every field except [translations]
    and [updated_at]. *)
Definition fields_kept (c c' : Concept) : Prop :=
  id c' = id c /\ categories c' = categories c /\
  confidence_score c' = confidence_score c /\ historical_yield c' = historical_yield c /\
  status c' = status c /\ usage_count c' = usage_count c /\
  last_used_at c' = last_used_at c /\
  last_positive_feedback_at c' = last_positive_feedback_at c /\
  created_at c' = created_at c.

(* ------------------------------------------------------------------ *)
(** ** The feedback rule as the design states it (for comparison) *)

Definition clamp01 (q : Q) : Q := Qmax 0 (Qmin 1 q).

Definition spec_new_score (s : Settings) (score relevance_metric : Q) : Q :=
  if Qle_bool (LOW_YIELD_THRESHOLD s) relevance_metric
  then Qmin (score * (105 # 100)) 1
  else clamp01 (score * SCORE_DECAY_FACTOR s).

Definition spec_new_yield (yield : Q) (usage : nat) (relevance_metric : Q) : Q :=
  let u := inject_Z (Z.of_nat usage) in
  if (usage =? 0)%nat then relevance_metric
  else clamp01 ((yield * u + relevance_metric) / (u + 1)).

(** Score and yield bounds of a stored concept. *)
Definition concept_bounds (c : Concept) : Prop :=
  0 <= confidence_score c <= 1 /\ 0 <= historical_yield c <= 1.

(** The collections after each event of a feedback sequence. *)
Fixpoint feedback_trace (s : Settings) (db : Collection)
    (events : list (ConceptFeedbackPayload * Timestamp)) : list Collection :=
  match events with
  | [] => []
  | (fb, now) :: rest =>
      let db' := (process_feedback s db fb now).1.1 in
      db' :: feedback_trace s db' rest
  end.

(* ------------------------------------------------------------------ *)
(** ** Concrete documents and responses *)

(** A freshly created concept for the EN term "fever". *)
Definition fever_concept (concept_id : nat) : Concept := {|
  id := concept_id; translations := {[ "en" := "fever" ]}; categories := ["infectious"];
  confidence_score := 3 # 4; historical_yield := 1 # 2; status := ACTIVE;
  usage_count := 0; last_used_at := None; last_positive_feedback_at := None;
  created_at := 0%Z; updated_at := 0%Z |}.

(** A store where "fever" was inserted by a concurrent writer between the
    first lookup and the insert. *)
Definition raced_store_io : TermIO := {|
  io_find_by_en := fun k t => if (k =? 0)%nat then None
                              else if String.eqb t "fever" then Some (fever_concept 7)
                              else None;
  io_insert_one := fun _ => Raise DuplicateKeyError;
  io_find_one := fun _ => Ok None;
  io_get_by_id := fun _ i => if (i =? 7)%nat then Some (fever_concept 7) else None;
  io_translate_term := fun _ _ _ => Some "fever"
|}.

(** A collection holding that concept under id 7. *)
Definition example_db : Collection := {[ 7%nat := fever_concept 7 ]}.

(** Positive feedback in French for concept 7, which has no French term. *)
Definition example_payload : ConceptFeedbackPayload :=
  mkPayload 7 "fr" (9 # 10) "ingester" (Some "fievre").

(** Negative feedback in English for concept 7. *)
Definition example_low_payload : ConceptFeedbackPayload :=
  mkPayload 7 "en" (1 # 10) "ingester" (Some "fever").

(** Concept 1 had positive feedback recently, concept 2 never had any. *)
Definition decay_db : Collection :=
  {[ 1%nat := {| id := 1; translations := {[ "en" := "cough" ]}; categories := [];
                 confidence_score := 1 # 2; historical_yield := 1 # 2;
                 status := ACTIVE; usage_count := 3; last_used_at := Some 990000%Z;
                 last_positive_feedback_at := Some 990000%Z;
                 created_at := 0%Z; updated_at := 990000%Z |};
     2%nat := {| id := 2; translations := {[ "en" := "rash" ]}; categories := [];
                 confidence_score := 1 # 2; historical_yield := 1 # 2;
                 status := ACTIVE; usage_count := 0; last_used_at := None;
                 last_positive_feedback_at := None;
                 created_at := 0%Z; updated_at := 0%Z |} ]}.

(** Three serialized gateway calls: the second one arrives 1s after the
    first and sleeps 3.1s. *)
Definition example_calls : list (Q * Q) := [(0, 0); (1, 41 # 10); (10, 10)].

(* ------------------------------------------------------------------ *)
(** ** Lemmas on the float builtins *)

Lemma py_max_cases (a b : Q) :
  (a < b /\ py_max a b = b) \/ (b <= a /\ py_max a b = a).
Proof. unfold py_max; destruct (Qlt_le_dec a b); auto. Qed.

Lemma py_min_cases (a b : Q) :
  (b < a /\ py_min a b = b) \/ (a <= b /\ py_min a b = a).
Proof. unfold py_min; destruct (Qlt_le_dec b a); auto. Qed.

Lemma Qmax_cases (a b : Q) : Qmax a b == a /\ b <= a \/ Qmax a b == b /\ a <= b.
Proof.
  destruct (Qlt_le_dec a b).
  - right. split; [apply Q.max_r | ]; lra.
  - left. split; [apply Q.max_l | ]; lra.
Qed.

Lemma Qmin_cases (a b : Q) : Qmin a b == a /\ a <= b \/ Qmin a b == b /\ b <= a.
Proof.
  destruct (Qlt_le_dec a b).
  - left. split; [apply Q.min_l | ]; lra.
  - right. split; [apply Q.min_r | ]; lra.
Qed.

Ltac py_case_max a b :=
  let E := fresh "E" in
  destruct (py_max_cases a b) as [[? E]|[? E]]; rewrite E in *; clear E.
Ltac py_case_min a b :=
  let E := fresh "E" in
  destruct (py_min_cases a b) as [[? E]|[? E]]; rewrite E in *; clear E.

Ltac py_cases :=
  repeat match goal with
  | |- context [py_max ?a ?b] => py_case_max a b
  | |- context [py_min ?a ?b] => py_case_min a b
  | H : context [py_max ?a ?b] |- _ => py_case_max a b
  | H : context [py_min ?a ?b] |- _ => py_case_min a b
  | |- context [Qmin ?a ?b] =>
      generalize (Qmin_cases a b); generalize (Qmin a b);
      intros ? [[? ?]|[? ?]]
  | |- context [Qmax ?a ?b] =>
      generalize (Qmax_cases a b); generalize (Qmax a b);
      intros ? [[? ?]|[? ?]]
  end.

Lemma feedback_new_status_iff (s : Settings) (st : TranslationStatus) (sc : Q) :
  feedback_new_status s st sc = INACTIVE <-> sc < KEYWORD_DEACTIVATION_THRESHOLD s.
Proof.
  unfold feedback_new_status.
  destruct (Qlt_le_dec sc (KEYWORD_DEACTIVATION_THRESHOLD s)) as [Hlt|Hge];
    destruct st; simpl; split; intro H; try discriminate; try reflexivity;
    try assumption; exfalso; apply (Qlt_not_le _ _ H Hge).
Qed.

Lemma process_feedback_found (s : Settings) (db : Collection)
    (fb : ConceptFeedbackPayload) (now : Timestamp) (c : Concept) :
  db !! fb_concept_id fb = Some c ->
  let c' := apply_update_doc c (feedback_update_payload s c (fb_relevance_metric fb) now) now in
  (process_feedback s db fb now).1.1 = <[fb_concept_id fb := c']> db /\
  (process_feedback s db fb now).1.2 = Some c'.
Proof.
  intros Hc c'. unfold process_feedback, apply_feedback_update.
  rewrite !Hc. simpl.
  rewrite lookup_insert_eq. auto.
Qed.

(* ------------------------------------------------------------------ *)
(** ** Feedback theorems *)


(** C3 (feedback part): after a feedback event, whichever the starting
    status and score, the stored status is [INACTIVE] iff the stored
    score is below [KEYWORD_DEACTIVATION_THRESHOLD]. *)
Lemma process_feedback_status_consistent (s : Settings) (db : Collection)
    (fb : ConceptFeedbackPayload) (now : Timestamp) (c : Concept) :
  db !! fb_concept_id fb = Some c ->
  exists c',
    (process_feedback s db fb now).1.1 !! fb_concept_id fb = Some c' /\
    (status c' = INACTIVE <-> confidence_score c' < KEYWORD_DEACTIVATION_THRESHOLD s).
Proof.
  intros Hc.
  destruct (process_feedback_found s db fb now c Hc) as [Hdb _].
  rewrite Hdb, lookup_insert_eq.
  eexists; split; [reflexivity|]. simpl.
  apply feedback_new_status_iff.
Qed.

Lemma feedback_step_bounds (s : Settings) (c : Concept) (m : Q) (now : Timestamp) :
  settings_valid s -> concept_bounds c -> 0 <= m <= 1 ->
  concept_bounds (apply_update_doc c (feedback_update_payload s c m now) now).
Proof.
  intros (_ & _ & Hf & _) [Hsc Hy] Hm. unfold concept_bounds; simpl.
  split.
  - unfold feedback_new_score, is_positive_feedback.
    destruct (Qle_bool (LOW_YIELD_THRESHOLD s) m); py_cases; nra.
  - unfold feedback_new_yield.
    destruct (usage_count c); [|set (a := (_ / _))]; py_cases; lra.
Qed.

Lemma process_feedback_bounds (s : Settings) (db : Collection)
    (fb : ConceptFeedbackPayload) (now : Timestamp) :
  settings_valid s -> 0 <= fb_relevance_metric fb <= 1 ->
  map_Forall (fun _ c => concept_bounds c) db ->
  map_Forall (fun _ c => concept_bounds c) (process_feedback s db fb now).1.1.
Proof.
  intros Hs Hm Hdb.
  destruct (db !! fb_concept_id fb) as [c|] eqn:Hc.
  - destruct (process_feedback_found s db fb now c Hc) as [-> _].
    apply map_Forall_insert_2; [|exact Hdb].
    apply feedback_step_bounds; [exact Hs| |exact Hm].
    exact (Hdb _ _ Hc).
  - unfold process_feedback. rewrite Hc. exact Hdb.
Qed.

(* ------------------------------------------------------------------ *)
(** ** Lemmas on the decay cycle *)

Lemma status_eqb_true (a b : TranslationStatus) : status_eqb a b = true <-> a = b.
Proof. destruct a, b; simpl; split; congruence. Qed.

Lemma decay_status_iff (s : Settings) (sc : Q) :
  decay_status s sc = INACTIVE <-> sc < KEYWORD_DEACTIVATION_THRESHOLD s.
Proof.
  unfold decay_status.
  destruct (Qlt_le_dec sc (KEYWORD_DEACTIVATION_THRESHOLD s)) as [H|H];
    split; intro E; try discriminate; try assumption; try reflexivity.
  exfalso; apply (Qlt_not_le _ _ E H).
Qed.

Lemma elem_of_decay_tasks (s : Settings) (db : Collection) (cutoff : Timestamp)
    (i : nat) (d : Q * TranslationStatus) :
  (i, d) ∈ decay_tasks s db cutoff <->
  exists c, db !! i = Some c /\ status c = ACTIVE /\ decay_decision s cutoff c = Some d.
Proof.
  unfold decay_tasks, get_all_concepts_for_decay.
  rewrite list_elem_of_omap. split.
  - intros ([j c] & Hin & Hf). simpl in Hf.
    apply list_elem_of_filter in Hin as [Hst Hin].
    apply elem_of_map_to_list in Hin. simpl in Hst.
    destruct (decay_decision s cutoff c) eqn:Hd; [|discriminate].
    injection Hf as <- <-. exists c. split; [exact Hin|].
    split; [apply status_eqb_true; exact Hst|assumption].
  - intros (c & Hc & Hst & Hd). exists (i, c). split.
    + apply list_elem_of_filter. split.
      * simpl. apply status_eqb_true. exact Hst.
      * apply elem_of_map_to_list. exact Hc.
    + simpl. rewrite Hd. reflexivity.
Qed.

Lemma keys_omap_filter_NoDup {X : Type} (P : nat * Concept -> Prop)
    `{forall x, Decision (P x)} (g : nat * Concept -> option (nat * X))
    (l : list (nat * Concept)) :
  (forall x y, g x = Some y -> y.1 = x.1) ->
  NoDup l.*1 -> NoDup (omap g (filter P l)).*1.
Proof.
  intros Hg. induction l as [|a l IH]; intros Hnd; simpl; [constructor|].
  inversion Hnd as [|? ? Hnotin Hnd']; subst.
  assert (Hsub : forall k, k ∈ (omap g (filter P l)).*1 -> k ∈ l.*1).
  { intros k Hk. apply list_elem_of_fmap in Hk as (y & -> & Hy).
    apply list_elem_of_omap in Hy as (x & Hx & Hgx).
    apply list_elem_of_filter in Hx as [_ Hx].
    rewrite (Hg _ _ Hgx). apply list_elem_of_fmap. eauto. }
  rewrite filter_cons. destruct (decide (P a)); simpl; [|auto].
  destruct (g a) as [y|] eqn:Hga; simpl; [|auto].
  constructor; [|auto].
  rewrite (Hg _ _ Hga). intro Hk. apply Hnotin, Hsub, Hk.
Qed.

Lemma decay_tasks_NoDup (s : Settings) (db : Collection) (cutoff : Timestamp) :
  NoDup (decay_tasks s db cutoff).*1.
Proof.
  apply keys_omap_filter_NoDup; [|apply NoDup_fst_map_to_list].
  intros [j c] y. simpl. destruct (decay_decision s cutoff c); [|discriminate].
  intros [= <-]. reflexivity.
Qed.

Lemma run_decay_tasks_notin (tasks : list (nat * (Q * TranslationStatus)))
    (db : Collection) (now : Timestamp) (i : nat) :
  i ∉ tasks.*1 -> (run_decay_tasks db tasks now).1 !! i = db !! i.
Proof.
  revert db. induction tasks as [|[j [sc st]] rest IH]; intros db Hi; [reflexivity|].
  simpl in Hi. rewrite not_elem_of_cons in Hi. destruct Hi as [Hij Hi].
  simpl. unfold apply_time_decay_to_concept.
  destruct (db !! j) as [c|] eqn:Hj.
  - destruct (run_decay_tasks (<[j:=decayed_doc c sc st now]> db) rest now)
      as [db2 n] eqn:Hr. simpl.
    change db2 with (db2, n).1. rewrite <- Hr, IH by exact Hi.
    apply lookup_insert_ne. congruence.
  - destruct (run_decay_tasks db rest now) as [db2 n] eqn:Hr. simpl.
    change db2 with (db2, n).1. rewrite <- Hr. apply IH. exact Hi.
Qed.

Lemma run_decay_tasks_in (tasks : list (nat * (Q * TranslationStatus)))
    (db : Collection) (now : Timestamp) (i : nat) (sc : Q) (st : TranslationStatus) :
  NoDup tasks.*1 -> (i, (sc, st)) ∈ tasks ->
  (run_decay_tasks db tasks now).1 !! i =
    (fun c => decayed_doc c sc st now) <$> db !! i.
Proof.
  revert db. induction tasks as [|[j [sc' st']] rest IH]; intros db Hnd Hin;
    [apply not_elem_of_nil in Hin; contradiction|].
  simpl in Hnd. apply NoDup_cons in Hnd as [Hj Hnd].
  simpl. unfold apply_time_decay_to_concept.
  apply elem_of_cons in Hin as [Heq|Hin].
  - injection Heq as E1 E2 E3; subst j sc' st'.
    destruct (db !! i) as [c|] eqn:Hc.
    + destruct (run_decay_tasks (<[i:=decayed_doc c sc st now]> db) rest now)
        as [db2 n] eqn:Hr. simpl.
      change db2 with (db2, n).1. rewrite <- Hr, run_decay_tasks_notin by exact Hj.
      rewrite lookup_insert_eq. reflexivity.
    + destruct (run_decay_tasks db rest now) as [db2 n] eqn:Hr. simpl.
      change db2 with (db2, n).1. rewrite <- Hr, run_decay_tasks_notin by exact Hj.
      rewrite Hc. reflexivity.
  - assert (Hij : i <> j).
    { intros ->. apply Hj. apply list_elem_of_fmap. exists (j, (sc, st)). auto. }
    destruct (db !! j) as [c|] eqn:Hc.
    + destruct (run_decay_tasks (<[j:=decayed_doc c sc' st' now]> db) rest now)
        as [db2 n] eqn:Hr. simpl.
      change db2 with (db2, n).1. rewrite <- Hr, IH by assumption.
      rewrite lookup_insert_ne by congruence. reflexivity.
    + destruct (run_decay_tasks db rest now) as [db2 n] eqn:Hr. simpl.
      change db2 with (db2, n).1. rewrite <- Hr. apply IH; assumption.
Qed.

Lemma apply_confidence_decay_applies (s : Settings) (db : Collection)
    (now : Timestamp) (i : nat) (c : Concept) :
  CONFIDENCE_DECAY_ENABLED s = true ->
  db !! i = Some c ->
  decay_applies (decay_cutoff s now) c = true ->
  exists c',
    (apply_confidence_decay s db now).1 !! i = Some c' /\
    confidence_score c' == decay_score s (confidence_score c) /\
    status c' = decay_status s (decay_score s (confidence_score c)).
Proof.
  intros Hen Hc Ha. unfold apply_confidence_decay. rewrite Hen. simpl.
  destruct (decay_decision s (decay_cutoff s now) c) as [[sc st]|] eqn:Hd.
  - assert (Hin : (i, (sc, st)) ∈ decay_tasks s db (decay_cutoff s now)).
    { apply elem_of_decay_tasks. exists c. split; [exact Hc|]. split; [|exact Hd].
      unfold decay_applies in Ha. apply andb_prop in Ha as [Ha _].
      apply status_eqb_true. exact Ha. }
    rewrite (run_decay_tasks_in _ _ _ _ _ _ (decay_tasks_NoDup _ _ _) Hin), Hc.
    eexists; split; [reflexivity|]. simpl.
    unfold decay_decision in Hd. rewrite Ha in Hd.
    destruct (_ || _); [|discriminate]. injection Hd as <- <-. split; reflexivity.
  - assert (Hnot : i ∉ (decay_tasks s db (decay_cutoff s now)).*1).
    { intro Hk. apply list_elem_of_fmap in Hk as ([j d] & Hj & Hk). simpl in Hj.
      subst j. apply elem_of_decay_tasks in Hk as (c2 & Hc2 & _ & Hd2).
      rewrite Hc in Hc2. injection Hc2 as <-. congruence. }
    rewrite run_decay_tasks_notin by exact Hnot.
    exists c. split; [exact Hc|].
    unfold decay_decision in Hd. rewrite Ha in Hd.
    destruct (Qeq_bool (decay_score s (confidence_score c)) (confidence_score c))
      eqn:Hq; [|discriminate].
    destruct (status_eqb (decay_status s (decay_score s (confidence_score c))) (status c))
      eqn:Hst; [|discriminate].
    apply Qeq_bool_eq in Hq. apply status_eqb_true in Hst.
    split; [symmetry; exact Hq|symmetry; exact Hst].
Qed.

Lemma apply_confidence_decay_no_task (s : Settings) (db : Collection)
    (now : Timestamp) (i : nat) (c : Concept) :
  db !! i = Some c ->
  decay_decision s (decay_cutoff s now) c = None ->
  (i ∉ (decay_tasks s db (decay_cutoff s now)).*1) /\
  (apply_confidence_decay s db now).1 !! i = Some c.
Proof.
  intros Hc Hd.
  assert (Hnot : i ∉ (decay_tasks s db (decay_cutoff s now)).*1).
  { intro Hk. apply list_elem_of_fmap in Hk as ([j d] & Hj & Hk). simpl in Hj.
    subst j. apply elem_of_decay_tasks in Hk as (c2 & Hc2 & _ & Hd2).
    rewrite Hc in Hc2. injection Hc2 as <-. congruence. }
  split; [exact Hnot|].
  unfold apply_confidence_decay.
  destruct (negb (CONFIDENCE_DECAY_ENABLED s)); [exact Hc|].
  rewrite run_decay_tasks_notin by exact Hnot. exact Hc.
Qed.

(* ------------------------------------------------------------------ *)
(** ** Claim theorems: feedback and decay *)



(** C6: the decay cycle queues a write only for a stored concept that is
    active and whose last positive feedback is unset or older than the
    decay period; and for a concept whose last positive feedback is recent,
    or whose decayed score and recomputed status both equal the current
    ones, no write is queued and the concept is left unchanged. *)
Theorem decay_cycle_guard_and_frame (s : Settings) (db : Collection)
    (now : Timestamp) :
  (forall (i : nat) (d : Q * TranslationStatus),
     (i, d) ∈ decay_tasks s db (decay_cutoff s now) ->
     exists c, db !! i = Some c /\ status c = ACTIVE /\
       (last_positive_feedback_at c = None \/
        exists t, last_positive_feedback_at c = Some t /\ (t < decay_cutoff s now)%Z)) /\
  (forall (i : nat) (c : Concept),
     db !! i = Some c ->
     ((exists t, last_positive_feedback_at c = Some t /\ (decay_cutoff s now <= t)%Z) \/
      (decay_score s (confidence_score c) == confidence_score c /\
       decay_status s (decay_score s (confidence_score c)) = status c)) ->
     (i ∉ (decay_tasks s db (decay_cutoff s now)).*1) /\
     (apply_confidence_decay s db now).1 !! i = Some c).
Proof.
  split.
  - intros i d Hin. apply elem_of_decay_tasks in Hin as (c & Hc & Hst & Hd).
    exists c. split; [exact Hc|]. split; [exact Hst|].
    unfold decay_decision, decay_applies in Hd.
    destruct (last_positive_feedback_at c) as [t|]; [|left; reflexivity].
    right. exists t. split; [reflexivity|].
    destruct (t <? decay_cutoff s now)%Z eqn:Ht.
    + apply Z.ltb_lt. exact Ht.
    + rewrite andb_false_r in Hd. discriminate.
  - intros i c Hc Hcase. apply apply_confidence_decay_no_task; [exact Hc|].
    unfold decay_decision.
    destruct (decay_applies (decay_cutoff s now) c) eqn:Ha; [|reflexivity].
    destruct Hcase as [(t & Ht & Hle)|[Hq Hst]].
    + unfold decay_applies in Ha. rewrite Ht in Ha.
      apply andb_prop in Ha as [_ Ha]. apply Z.ltb_lt in Ha. lia.
    + apply Qeq_bool_iff in Hq. rewrite Hq, Hst.
      destruct (status c); reflexivity.
Qed.


(* ------------------------------------------------------------------ *)
(** ** Claim theorems: create-or-merge *)

(** C5: [create_concept] returns [None] exactly when the insert raised
    [DuplicateKeyError]; any other failure of the insert or of the fetch
    that follows it (store unavailable, operation failure, ...) is raised to
    the caller, and a uniqueness conflict is never raised. Reads never
    raise [DuplicateKeyError], a write error. *)
Theorem create_concept_failure_modes (insert_result : Result nat)
    (find_one : nat -> Result (option Concept)) :
  (forall k, find_one k <> Raise DuplicateKeyError) ->
  (create_concept insert_result find_one = Ok None <->
     insert_result = Raise DuplicateKeyError) /\
  (forall e, insert_result = Raise e -> e <> DuplicateKeyError ->
     create_concept insert_result find_one = Raise e) /\
  (forall k e, insert_result = Ok k -> find_one k = Raise e ->
     create_concept insert_result find_one = Raise e) /\
  (forall e, create_concept insert_result find_one = Raise e ->
     e <> DuplicateKeyError).
Proof.
  intros Hread. unfold create_concept.
  split; [|split; [|split]].
  - split.
    + destruct insert_result as [k|e].
      * specialize (Hread k).
        destruct (find_one k) as [[d|]|e]; try discriminate.
        destruct e; try discriminate. contradiction.
      * destruct e; try discriminate; reflexivity.
    + intros ->. reflexivity.
  - intros e -> Hne. destruct e; try reflexivity. contradiction.
  - intros k e -> Hf. rewrite Hf. specialize (Hread k). rewrite Hf in Hread.
    destruct e; try reflexivity. contradiction.
  - destruct insert_result as [k|e0].
    + specialize (Hread k). destruct (find_one k) as [[d|]|e0]; try discriminate.
      * intros e [= <-]. discriminate.
      * destruct e0; try contradiction; intros e [= <-]; discriminate.
    + destruct e0; try discriminate; intros e [= <-]; discriminate.
Qed.


(* ------------------------------------------------------------------ *)
(** ** Claim theorems: the gateway *)

Lemma stamp_after_last (last : option Q) (now now_after_sleep : Q) (l : Q) :
  last = Some l ->
  (forall w, fst (apply_rate_limit_delay last now now_after_sleep) = Some w ->
             now + w <= now_after_sleep) ->
  l + MIN_SECONDS_BETWEEN_CALLS <= snd (apply_rate_limit_delay last now now_after_sleep).
Proof.
  intros -> Hsleep. revert Hsleep. unfold apply_rate_limit_delay.
  destruct (Qlt_le_dec 0 (MIN_SECONDS_BETWEEN_CALLS - (now - l))) as [H|H];
    simpl; intros Hsleep.
  - specialize (Hsleep _ eq_refl). lra.
  - lra.
Qed.

(** C7: for every run of gateway calls serialized by [_api_call_lock],
    with a clock that never goes back and sleeps that last at least their
    duration, two successive recorded start times are at least
    [MIN_SECONDS_BETWEEN_CALLS] apart. *)
Theorem rate_limiter_spacing (calls : list (Q * Q)) :
  clock_readings_ok None calls ->
  forall (k : nat) (a b : Q),
    rate_limiter_run None calls !! k = Some a ->
    rate_limiter_run None calls !! S k = Some b ->
    a + MIN_SECONDS_BETWEEN_CALLS <= b.
Proof.
  generalize (@None Q) as last.
  induction calls as [|[now now1] rest IH]; intros last Hok k a b Ha Hb;
    [discriminate|].
  inversion Hok as [|? ? ? ? Hmono Hsleep Hrest]; subst.
  simpl in Ha, Hb.
  destruct k as [|k].
  - injection Ha as <-.
    destruct rest as [|[n0 n1] rest']; [discriminate|].
    simpl in Hb. injection Hb as <-.
    inversion Hrest as [|? ? ? ? Hmono' Hsleep' Hrest']; subst.
    apply (stamp_after_last _ _ _ _ eq_refl Hsleep').
  - exact (IH _ Hrest k a b Ha Hb).
Qed.



(* ------------------------------------------------------------------ *)
(** ** Claim theorems: translation upsert *)



(* ------------------------------------------------------------------ *)
(** ** Witnesses: the theorems at concrete inputs *)

Lemma settings_default_valid : settings_valid settings_default.
Proof. unfold settings_valid; simpl; repeat split; unfold Qle, Qlt; simpl; lia. Qed.

Lemma fever_concept_bounds (i : nat) : concept_bounds (fever_concept i).
Proof. unfold concept_bounds; simpl; repeat split; unfold Qle; simpl; lia. Qed.




Lemma decay_cycle_guard_and_frame_witness :
  exists c, decay_db !! 1%nat = Some c /\
    (1%nat ∉ (decay_tasks settings_default decay_db (decay_cutoff settings_default 1000000%Z)).*1) /\
    (apply_confidence_decay settings_default decay_db 1000000%Z).1 !! 1%nat = Some c.
Proof.
  destruct (decay_db !! 1%nat) as [c|] eqn:Hc; [|discriminate].
  exists c. split; [reflexivity|].
  apply (proj2 (decay_cycle_guard_and_frame settings_default decay_db 1000000%Z) 1%nat c Hc).
  left. exists 990000%Z. split.
  - revert Hc. vm_compute. intros [= <-]. reflexivity.
  - vm_compute. discriminate.
Defined.


Lemma create_concept_failure_modes_witness :
  create_concept (Raise DuplicateKeyError) (fun _ => Ok None) = Ok None /\
  create_concept (Raise ConnectionFailure) (fun _ => Ok None) = Raise ConnectionFailure.
Proof.
  assert (Hread : forall k : nat, (fun _ => @Ok (option Concept) None) k <> Raise DuplicateKeyError)
    by (intros k; discriminate).
  split.
  - apply (proj1 (create_concept_failure_modes (Raise DuplicateKeyError) _ Hread)).
    reflexivity.
  - apply (proj1 (proj2 (create_concept_failure_modes (Raise ConnectionFailure) _ Hread))).
    + reflexivity.
    + discriminate.
Defined.


Lemma rate_limiter_spacing_witness :
  clock_readings_ok None example_calls /\
  rate_limiter_run None example_calls = [0; 41 # 10; 10] /\
  0 + MIN_SECONDS_BETWEEN_CALLS <= 41 # 10.
Proof.
  assert (Hok : clock_readings_ok None example_calls).
  { unfold example_calls.
    apply readings_cons; [discriminate|discriminate|].
    apply readings_cons.
    { intros l [= <-]. unfold Qle; simpl; lia. }
    { intros w Hw. vm_compute in Hw. injection Hw as <-. unfold Qle; simpl; lia. }
    apply readings_cons.
    { intros l Hl. vm_compute in Hl. injection Hl as <-. unfold Qle; simpl; lia. }
    { vm_compute. discriminate. }
    apply readings_nil. }
  split; [exact Hok|]. split; [reflexivity|].
  apply (rate_limiter_spacing example_calls Hok 0); reflexivity.
Defined.



(* ------------------------------------------------------------------ *)
(** ** Further properties of the code *)


Lemma lower_ascii_idem (c : ascii) : lower_ascii (lower_ascii c) = lower_ascii c.
Proof. destruct c as [[] [] [] [] [] [] [] []]; reflexivity. Qed.

Lemma lower_idem (s : string) : lower (lower s) = lower s.
Proof. induction s as [|c s IH]; simpl; [reflexivity|]. rewrite lower_ascii_idem, IH. reflexivity. Qed.

Lemma lower_empty (s : string) : lower s = EmptyString <-> s = EmptyString.
Proof. destruct s; simpl; split; congruence. Qed.

Lemma is_py_space_lower (c : ascii) : is_py_space (lower_ascii c) = is_py_space c.
Proof. destruct c as [[] [] [] [] [] [] [] []]; reflexivity. Qed.

Lemma forallb_rev {A : Type} (p : A -> bool) (l : list A) : forallb p (rev l) = forallb p l.
Proof.
  induction l as [|a l IH]; simpl; [reflexivity|].
  rewrite forallb_app, IH. simpl. rewrite andb_true_r, andb_comm. reflexivity.
Qed.

Lemma lstrip_list_forallb (p : ascii -> bool) (l : list ascii) :
  forallb p (lstrip_list p l) = forallb p l.
Proof.
  induction l as [|a l IH]; simpl; [reflexivity|].
  destruct (p a) eqn:E; simpl; [exact IH|rewrite E; reflexivity].
Qed.

Lemma lstrip_list_nil (p : ascii -> bool) (l : list ascii) :
  lstrip_list p l = [] <-> forallb p l = true.
Proof.
  induction l as [|a l IH]; simpl; [tauto|].
  destruct (p a); simpl; [exact IH|split; discriminate].
Qed.

Lemma py_strip_empty (p : ascii -> bool) (s : string) :
  py_strip p s = EmptyString <-> forallb p (list_ascii_of_string s) = true.
Proof.
  unfold py_strip. split.
  - intros H.
    destruct (rev (lstrip_list p (rev (lstrip_list p (list_ascii_of_string s)))))
      as [|a l] eqn:E; [|discriminate].
    apply (f_equal (@rev ascii)) in E. rewrite rev_involutive in E. simpl in E.
    apply lstrip_list_nil in E. rewrite forallb_rev, lstrip_list_forallb in E. exact E.
  - intros H. apply lstrip_list_nil in H. rewrite H. reflexivity.
Qed.

Lemma list_ascii_of_string_lower (s : string) :
  list_ascii_of_string (lower s) = map lower_ascii (list_ascii_of_string s).
Proof. induction s as [|c s IH]; simpl; [reflexivity|]. rewrite IH. reflexivity. Qed.

Lemma py_strip_space_lower_empty (s : string) :
  py_strip is_py_space (lower s) = EmptyString <-> py_strip is_py_space s = EmptyString.
Proof.
  rewrite !py_strip_empty, list_ascii_of_string_lower.
  induction (list_ascii_of_string s) as [|c l IH]; simpl; [tauto|].
  rewrite is_py_space_lower. destruct (is_py_space c); simpl; [exact IH|tauto].
Qed.


Lemma parse_concept_lines_lower (raw : string) :
  Forall (fun t => lower t = t) (parse_concept_lines raw).
Proof.
  unfold parse_concept_lines. apply Forall_forall. intros t Ht.
  apply list_elem_of_fmap in Ht as (ln & -> & _). apply lower_idem.
Qed.

Lemma parse_concept_lines_length (raw : string) :
  (length (parse_concept_lines raw) <= length (split_on (ascii_of_nat 10) raw))%nat.
Proof.
  unfold parse_concept_lines. rewrite length_map.
  apply sublist_length, sublist_filter.
Qed.




Lemma existsb_string_eqb (x : string) (l : list string) :
  existsb (String.eqb x) l = true <-> x ∈ l.
Proof.
  rewrite existsb_exists. split.
  - intros (y & Hy & E). apply String.eqb_eq in E. subst y.
    apply list_elem_of_In. exact Hy.
  - intros Hx. exists x. split; [apply list_elem_of_In; exact Hx|apply String.eqb_refl].
Qed.

(** X4: [add_or_update_concept_category] returns failure and writes nothing
    for a missing concept; for an existing one it returns success, the
    category is then present, the old categories are kept, nothing else is
    added, an already present category leaves the list unchanged, a
    duplicate-free list stays duplicate-free, the scores, status, usage and
    translations are kept, and [updated_at] is the write time. *)
Theorem add_or_update_concept_category_spec (db : Collection) (concept_id : nat)
    (category : string) (now : Timestamp) :
  (db !! concept_id = None ->
     add_or_update_concept_category db concept_id category now = (db, false)) /\
  (forall c, db !! concept_id = Some c ->
     exists c',
       add_or_update_concept_category db concept_id category now =
         (<[concept_id := c']> db, true) /\
       category ∈ categories c' /\
       (forall x, x ∈ categories c -> x ∈ categories c') /\
       (forall x, x ∈ categories c' -> x = category \/ x ∈ categories c) /\
       (category ∈ categories c -> categories c' = categories c) /\
       (NoDup (categories c) -> NoDup (categories c')) /\
       translations c' = translations c /\ confidence_score c' = confidence_score c /\
       historical_yield c' = historical_yield c /\ status c' = status c /\
       usage_count c' = usage_count c /\ updated_at c' = now).
Proof.
  unfold add_or_update_concept_category. split; [intros ->; reflexivity|].
  intros c ->. eexists. split; [reflexivity|]. simpl. unfold add_to_set.
  destruct (existsb (String.eqb category) (categories c)) eqn:E.
  - apply existsb_string_eqb in E.
    repeat split; auto.
  - assert (Hn : category ∉ categories c).
    { intros Hc. apply existsb_string_eqb in Hc. congruence. }
    repeat split.
    + apply elem_of_app. right. left.
    + intros x Hx. apply elem_of_app. left. exact Hx.
    + intros x Hx. apply elem_of_app in Hx as [Hx|Hx]; [right; exact Hx|].
      left. apply list_elem_of_singleton in Hx. exact Hx.
    + intros Hc. contradiction.
    + intros Hnd. apply NoDup_app. split; [exact Hnd|]. split; [|apply NoDup_singleton].
      intros x Hx Hx'. apply list_elem_of_singleton in Hx'. subst x. contradiction.
Qed.

Lemma check_languages_blank (v : gmap string string) (lang t : string) :
  v !! lang = Some t -> py_strip is_py_space t = EmptyString ->
  check_languages v = false.
Proof.
  intros Hl Hb. unfold check_languages.
  destruct (forallb _ (map_to_list v)) eqn:Hf; [|rewrite !andb_false_r; reflexivity].
  exfalso. rewrite forallb_forall in Hf.
  assert (Hin : In (lang, t) (map_to_list v)).
  { apply list_elem_of_In, elem_of_map_to_list. exact Hl. }
  specialize (Hf _ Hin). simpl in Hf. rewrite Hb in Hf. simpl in Hf.
  rewrite andb_false_r in Hf. discriminate.
Qed.

Lemma get_concept_by_id_some (db : Collection) (i : nat) (c : Concept) :
  get_concept_by_id db i = Some c <-> db !! i = Some c /\ concept_valid c = true.
Proof.
  unfold get_concept_by_id. destruct (db !! i) as [c0|]; [|split; [discriminate|intros [? _]; discriminate]].
  destruct (concept_valid c0) eqn:Hv; split.
  - intros [= <-]. auto.
  - intros [[= <-] _]. reflexivity.
  - discriminate.
  - intros [[= <-] H]. congruence.
Qed.



Lemma manual_translations_en (ci : ApiConceptCreate) :
  manual_translations ci !! "en" = Some (lower (api_english_term ci)).
Proof.
  unfold manual_translations.
  destruct (api_french_term ci) as [f|]; [destruct (String.eqb f EmptyString)|];
  destruct (api_arabic_term ci) as [a|]; try destruct (String.eqb a EmptyString);
  rewrite ?lookup_insert_ne by discriminate; apply lookup_singleton_eq.
Qed.

Lemma manual_translations_fr (ci : ApiConceptCreate) (f : string) :
  api_french_term ci = Some f -> f <> EmptyString ->
  manual_translations ci !! "fr" = Some (lower f).
Proof.
  intros Hf Hne. apply String.eqb_neq in Hne. unfold manual_translations. rewrite Hf, Hne.
  destruct (api_arabic_term ci) as [a|]; try destruct (String.eqb a EmptyString);
  rewrite ?lookup_insert_ne by discriminate; apply lookup_insert_eq.
Qed.

Lemma manual_translations_ar (ci : ApiConceptCreate) (a : string) :
  api_arabic_term ci = Some a -> a <> EmptyString ->
  manual_translations ci !! "ar" = Some (lower a).
Proof.
  intros Ha Hne. apply String.eqb_neq in Hne. unfold manual_translations. rewrite Ha, Hne.
  apply lookup_insert_eq.
Qed.

Lemma manual_translations_cases (ci : ApiConceptCreate) (lang t : string) :
  manual_translations ci !! lang = Some t ->
  (lang = "en" /\ t = lower (api_english_term ci)) \/
  (lang = "fr" /\ exists f, api_french_term ci = Some f /\ f <> EmptyString /\ t = lower f) \/
  (lang = "ar" /\ exists a, api_arabic_term ci = Some a /\ a <> EmptyString /\ t = lower a).
Proof.
  unfold manual_translations.
  set (t0 := {[ "en" := lower (api_english_term ci) ]} : gmap string string).
  assert (H0 : forall t', t0 !! lang = Some t' -> lang = "en" /\ t' = lower (api_english_term ci)).
  { intros t' Ht. apply lookup_singleton_Some in Ht as [<- <-]. auto. }
  set (t1 := match api_french_term ci with
             | Some f => if String.eqb f EmptyString then t0 else <["fr" := lower f]> t0
             | None => t0 end).
  assert (H1 : forall t', t1 !! lang = Some t' ->
     (lang = "en" /\ t' = lower (api_english_term ci)) \/
     (lang = "fr" /\ exists f, api_french_term ci = Some f /\ f <> EmptyString /\ t' = lower f)).
  { intros t' Ht. unfold t1 in Ht.
    destruct (api_french_term ci) as [f|] eqn:Hf; [|left; auto].
    destruct (String.eqb f EmptyString) eqn:Ef; [left; auto|].
    apply lookup_insert_Some in Ht as [[<- <-]|[_ Ht]]; [|left; auto].
    right. split; [reflexivity|]. exists f. apply String.eqb_neq in Ef. auto. }
  fold t0. fold t1. intros Ht.
  destruct (api_arabic_term ci) as [a|] eqn:Ha.
  - destruct (String.eqb a EmptyString) eqn:Ea.
    + destruct (H1 _ Ht) as [H|H]; [left|right; left]; exact H.
    + apply lookup_insert_Some in Ht as [[<- <-]|[_ Ht]].
      * right; right. split; [reflexivity|]. exists a. apply String.eqb_neq in Ea. auto.
      * destruct (H1 _ Ht) as [H|H]; [left|right; left]; exact H.
  - destruct (H1 _ Ht) as [H|H]; [left|right; left]; exact H.
Qed.

Lemma manual_translations_valid (ci : ApiConceptCreate) :
  check_languages (manual_translations ci) = true <->
  py_strip is_py_space (api_english_term ci) <> EmptyString /\
  (forall f, api_french_term ci = Some f -> f <> EmptyString ->
     py_strip is_py_space f <> EmptyString) /\
  (forall a, api_arabic_term ci = Some a -> a <> EmptyString ->
     py_strip is_py_space a <> EmptyString).
Proof.
  split.
  - intros Hv. split; [|split].
    + intros Hb. rewrite (check_languages_blank _ "en" (lower (api_english_term ci))) in Hv;
        [discriminate|apply manual_translations_en|exact (proj2 (py_strip_space_lower_empty _) Hb)].
    + intros f Hf Hne Hb.
      rewrite (check_languages_blank _ "fr" (lower f)) in Hv;
        [discriminate|apply manual_translations_fr; assumption
        |exact (proj2 (py_strip_space_lower_empty _) Hb)].
    + intros a Ha Hne Hb.
      rewrite (check_languages_blank _ "ar" (lower a)) in Hv;
        [discriminate|apply manual_translations_ar; assumption
        |exact (proj2 (py_strip_space_lower_empty _) Hb)].
  - intros (He & Hf & Ha). unfold check_languages.
    rewrite manual_translations_en.
    assert (Hen : lower (api_english_term ci) <> EmptyString).
    { intros Hl. apply (proj1 (lower_empty _)) in Hl. apply He. rewrite Hl. reflexivity. }
    apply String.eqb_neq in Hen. rewrite Hen.
    assert (Hne : bool_decide (manual_translations ci = ∅) = false).
    { apply bool_decide_eq_false. intros E.
      pose proof (manual_translations_en ci) as E'. rewrite E, lookup_empty in E'.
      discriminate. }
    rewrite Hne. simpl. apply forallb_forall. intros [lang t] Hin.
    apply list_elem_of_In, elem_of_map_to_list, manual_translations_cases in Hin.
    simpl. apply andb_true_intro.
    destruct Hin as [[-> ->]|[[-> (f & Hf1 & Hf2 & ->)]|[-> (a & Ha1 & Ha2 & ->)]]];
      split; try reflexivity; apply negb_true_iff, String.eqb_neq;
      intros Hb; apply (proj1 (py_strip_space_lower_empty _)) in Hb; eauto.
    exact (Hf f Hf1 Hf2 Hb). exact (Ha a Ha1 Ha2 Hb).
Qed.

Lemma get_concept_by_english_term_lower (io : TermIO) (k : nat) (t : string) :
  get_concept_by_english_term io k (lower t) = get_concept_by_english_term io k t.
Proof. unfold get_concept_by_english_term. rewrite lower_idem. reflexivity. Qed.



Section Sort.
Context {A : Type} (key : A -> Q).

Lemma insert_desc_perm (x : A) (l : list A) : Permutation (insert_desc key x l) (x :: l).
Proof.
  induction l as [|y r IH]; simpl; [reflexivity|].
  destruct (Qlt_le_dec (key y) (key x)); [reflexivity|].
  eapply Permutation_trans; [apply perm_skip; exact IH|apply perm_swap].
Qed.

Lemma sort_desc_perm (l : list A) : Permutation (sort_desc key l) l.
Proof.
  unfold sort_desc. induction l as [|a l IH]; simpl; [reflexivity|].
  eapply Permutation_trans; [apply insert_desc_perm|]. apply perm_skip, IH.
Qed.


Lemma insert_desc_sorted (x : A) (l : list A) :
  StronglySorted (key_ge key) l -> StronglySorted (key_ge key) (insert_desc key x l).
Proof.
  induction l as [|y r IH]; intros Hs; simpl.
  - repeat constructor.
  - inversion Hs as [|? ? Hr Hy]; subst.
    destruct (Qlt_le_dec (key y) (key x)) as [Hlt|Hle].
    + constructor; [exact Hs|]. constructor; [unfold key_ge; lra|].
      eapply Forall_impl; [exact Hy|]. unfold key_ge. intros b Hb. lra.
    + constructor; [apply IH, Hr|].
      apply Forall_forall. intros b Hb.
      rewrite (insert_desc_perm x r) in Hb.
      apply elem_of_cons in Hb as [->|Hb]; [exact Hle|].
      apply (proj1 (Forall_forall _ _) Hy). exact Hb.
Qed.

Lemma sort_desc_sorted (l : list A) : StronglySorted (key_ge key) (sort_desc key l).
Proof.
  unfold sort_desc. induction l as [|a l IH]; simpl; [constructor|].
  apply insert_desc_sorted, IH.
Qed.

Lemma StronglySorted_app (l1 l2 : list A) :
  StronglySorted (key_ge key) (l1 ++ l2) ->
  StronglySorted (key_ge key) l1 /\ (forall x y, x ∈ l1 -> y ∈ l2 -> key y <= key x).
Proof.
  induction l1 as [|a l1 IH]; simpl; intros Hs.
  - split; [constructor|]. intros x y Hx. inversion Hx.
  - inversion Hs as [|? ? Hr Ha]; subst.
    destruct (IH Hr) as [H1 H2]. split.
    + constructor; [exact H1|].
      apply Forall_forall. intros b Hb. apply (proj1 (Forall_forall _ _) Ha).
      apply elem_of_app. left. exact Hb.
    + intros x y Hx Hy. apply elem_of_cons in Hx as [->|Hx]; [|apply H2; assumption].
      apply (proj1 (Forall_forall _ _) Ha). apply elem_of_app. right. exact Hy.
Qed.

Lemma StronglySorted_lookup (l : list A) (k : nat) (a b : A) :
  StronglySorted (key_ge key) l -> l !! k = Some a -> l !! S k = Some b -> key b <= key a.
Proof.
  revert k. induction l as [|x l IH]; intros k Hs Ha Hb; [discriminate|].
  inversion Hs as [|? ? Hr Hx]; subst. destruct k as [|k]; simpl in Ha, Hb.
  - injection Ha as <-. apply (proj1 (Forall_forall _ _) Hx).
    apply list_elem_of_lookup. exists 0%nat. exact Hb.
  - exact (IH k Hr Ha Hb).
Qed.

Lemma take_elem (n : nat) (l : list A) (x : A) : x ∈ take n l -> x ∈ l.
Proof. intros H. eapply elem_of_sublist; [exact H|apply sublist_take]. Qed.

End Sort.

Lemma take_sorted {A : Type} (key : A -> Q) (n : nat) (l : list A) :
  StronglySorted (key_ge key) l -> StronglySorted (key_ge key) (take n l).
Proof.
  intros Hs. rewrite <- (take_drop n l) in Hs. apply StronglySorted_app in Hs. apply Hs.
Qed.

Lemma keyword_query_elem (db : Collection) (lang : string) (min_score : Q) (limit : nat)
    (ic : nat * Concept) :
  ic ∈ take limit (sort_desc (fun ic => confidence_score ic.2)
         (filter (fun ic => active_keyword_match lang min_score ic.2 = true) (map_to_list db))) ->
  db !! ic.1 = Some ic.2 /\ active_keyword_match lang min_score ic.2 = true.
Proof.
  intros Hin. apply take_elem in Hin. rewrite (sort_desc_perm _) in Hin.
  apply list_elem_of_filter in Hin as [Hm Hin].
  apply elem_of_map_to_list' in Hin. auto.
Qed.

Lemma active_keyword_match_iff (lang : string) (min_score : Q) (c : Concept) :
  active_keyword_match lang min_score c = true <->
  status c = ACTIVE /\ min_score <= confidence_score c /\
  exists t, translations c !! lang = Some t /\ t <> EmptyString.
Proof.
  unfold active_keyword_match.
  rewrite !andb_true_iff, status_eqb_true, Qle_bool_iff.
  destruct (translations c !! lang) as [t|].
  - rewrite negb_true_iff, String.eqb_neq. split.
    + intros [[H1 H2] H3]. eauto.
    + intros (H1 & H2 & t' & [= <-] & H3). auto.
  - split; [intros [_ H]; discriminate|intros (_ & _ & t' & H & _); discriminate].
Qed.

(** X7: for a positive limit, [get_active_keywords] returns at most
    [limit] documents with distinct ids, each one a stored active concept
    whose score is at least [min_score] and whose term in [lang] is
    non-empty, ordered by non-increasing score; a qualifying concept is
    left out only when the result is full of concepts scored at least as
    high. *)
Theorem get_active_keywords_spec (db : Collection) (lang : string) (min_score : Q)
    (limit : nat) :
  (0 < limit)%nat ->
  (length (get_active_keywords db lang min_score limit) <= limit)%nat /\
  NoDup (map kd_id (get_active_keywords db lang min_score limit)) /\
  (forall d, d ∈ get_active_keywords db lang min_score limit ->
     exists c t, db !! kd_id d = Some c /\ status c = ACTIVE /\
       min_score <= confidence_score c /\
       translations c !! lang = Some t /\ t <> EmptyString /\
       kd_translations d = translations c /\ kd_confidence_score d = confidence_score c) /\
  (forall k d1 d2,
     get_active_keywords db lang min_score limit !! k = Some d1 ->
     get_active_keywords db lang min_score limit !! S k = Some d2 ->
     kd_confidence_score d2 <= kd_confidence_score d1) /\
  (forall i c t, db !! i = Some c -> status c = ACTIVE -> min_score <= confidence_score c ->
     translations c !! lang = Some t -> t <> EmptyString ->
     (exists d, d ∈ get_active_keywords db lang min_score limit /\ kd_id d = i) \/
     (length (get_active_keywords db lang min_score limit) = limit /\
      forall d, d ∈ get_active_keywords db lang min_score limit ->
        confidence_score c <= kd_confidence_score d)).
Proof.
  intros _. unfold get_active_keywords.
  set (key := fun ic : nat * Concept => confidence_score ic.2).
  set (F := filter (fun ic => active_keyword_match lang min_score ic.2 = true) (map_to_list db)).
  set (proj := fun ic : nat * Concept =>
         {| kd_id := ic.1; kd_translations := translations ic.2;
            kd_confidence_score := confidence_score ic.2 |}).
  assert (Hsorted := sort_desc_sorted key F).
  assert (Hperm := sort_desc_perm key F).
  set (Sl := sort_desc key F) in *.
  split; [|split; [|split; [|split]]].
  - rewrite length_map, length_take. lia.
  - rewrite map_map. simpl.
    change (NoDup (fst <$> take limit Sl)).
    apply NoDup_fmap_fst.
    + intros x y1 y2 H1 H2.
      apply take_elem in H1, H2. rewrite Hperm in H1, H2.
      apply list_elem_of_filter in H1 as [_ H1], H2 as [_ H2].
      apply elem_of_map_to_list in H1, H2. congruence.
    + eapply sublist_NoDup; [|apply sublist_take].
      rewrite Hperm. apply NoDup_filter, NoDup_map_to_list.
  - intros d Hd. apply list_elem_of_fmap in Hd as ([i c] & -> & Hin).
    apply keyword_query_elem in Hin as [Hc Hm]. simpl in *.
    apply active_keyword_match_iff in Hm as (H1 & H2 & t & H3 & H4).
    exists c, t. auto 10.
  - intros k d1 d2 H1 H2. rewrite list_lookup_fmap in H1, H2.
    destruct (take limit Sl !! k) as [x1|] eqn:E1; [|discriminate].
    destruct (take limit Sl !! S k) as [x2|] eqn:E2; [|discriminate].
    injection H1 as <-. injection H2 as <-. simpl.
    exact (StronglySorted_lookup key _ k x1 x2 (take_sorted key limit _ Hsorted) E1 E2).
  - intros i c t Hc H1 H2 H3 H4.
    assert (Hin : (i, c) ∈ Sl).
    { rewrite Hperm. apply list_elem_of_filter. split.
      - simpl. apply active_keyword_match_iff. eauto.
      - apply elem_of_map_to_list. exact Hc. }
    rewrite <- (take_drop limit Sl) in Hin. apply elem_of_app in Hin as [Hin|Hin].
    + left. exists (proj (i, c)). split; [|reflexivity].
      apply list_elem_of_fmap. eauto.
    + right. split.
      * rewrite length_map, length_take.
        assert (Hd : (0 < length (drop limit Sl))%nat).
        { destruct (drop limit Sl); [inversion Hin|simpl; lia]. }
        rewrite length_drop in Hd. lia.
      * intros d Hd. apply list_elem_of_fmap in Hd as (ic & -> & Hic).
        rewrite <- (take_drop limit Sl) in Hsorted.
        apply StronglySorted_app in Hsorted as [_ Hge].
        exact (Hge _ _ Hic Hin).
Qed.

Lemma StronglySorted_sublist {A : Type} (R : A -> A -> Prop) (l1 l2 : list A) :
  l1 `sublist_of` l2 -> StronglySorted R l2 -> StronglySorted R l1.
Proof.
  induction 1 as [|x l1 l2 Hsub IH|x l1 l2 Hsub IH]; intros Hs; [constructor| |].
  - inversion Hs as [|? ? Hr Hx]; subst. constructor; [apply IH, Hr|].
    apply Forall_forall. intros y Hy. apply (proj1 (Forall_forall _ _) Hx).
    eapply elem_of_sublist; eassumption.
  - inversion Hs; subst. apply IH. assumption.
Qed.

Lemma filter_all {A : Type} (P : A -> Prop) `{forall x, Decision (P x)} (l : list A) :
  Forall P l -> filter P l = l.
Proof.
  induction 1 as [|x l Hx Hl IH]; [reflexivity|].
  rewrite filter_cons_True by exact Hx. rewrite IH. reflexivity.
Qed.

(** X8: GET /keywords returns one item per document of
    [get_active_keywords], in the same order: the term is the document's
    non-empty term in [lang], the language is [lang], the concept id is the
    document's id, and the display name is the English term when there is
    one. *)
Theorem get_keywords_spec (db : Collection) (lang : string) (limit : nat) (min_score : Q) :
  Forall2 (fun d it =>
      kd_translations d !! lang = Some (kw_term it) /\ kw_term it <> EmptyString /\
      kw_language it = lang /\ kw_concept_id it = kd_id d /\
      (forall e, kd_translations d !! "en" = Some e -> kw_concept_display_name it = e))
    (get_active_keywords db lang min_score limit) (get_keywords db lang limit min_score).
Proof.
  unfold get_keywords.
  assert (Hall : forall d, d ∈ get_active_keywords db lang min_score limit ->
            exists t, kd_translations d !! lang = Some t /\ t <> EmptyString).
  { intros d Hd. unfold get_active_keywords in Hd.
    apply list_elem_of_fmap in Hd as (ic & -> & Hin).
    apply keyword_query_elem in Hin as [_ Hm]. simpl.
    apply active_keyword_match_iff in Hm as (_ & _ & t & Ht & Hne). eauto. }
  induction (get_active_keywords db lang min_score limit) as [|d rest IH]; simpl;
    [constructor|].
  destruct (Hall d ltac:(left)) as (t & Ht & Hne).
  unfold keyword_item at 1. rewrite Ht.
  destruct (String.eqb t EmptyString) eqn:E; [apply String.eqb_eq in E; contradiction|].
  constructor.
  - simpl. split; [exact Ht|]. split; [exact Hne|]. split; [reflexivity|].
    split; [reflexivity|]. intros e He. rewrite He. reflexivity.
  - apply IH. intros d' Hd'. apply Hall. right. exact Hd'.
Qed.



Lemma fields_kept_refl (c : Concept) : fields_kept c c.
Proof. repeat split. Qed.

Lemma fields_kept_trans (c1 c2 c3 : Concept) :
  fields_kept c1 c2 -> fields_kept c2 c3 -> fields_kept c1 c3.
Proof.
  unfold fields_kept. intros (? & ? & ? & ? & ? & ? & ? & ? & ?) (? & ? & ? & ? & ? & ? & ? & ? & ?).
  repeat split; congruence.
Qed.

Lemma upsert_found (db : Collection) (cid : nat) (lang term : string) (now : Timestamp)
    (c : Concept) :
  in_supported_languages lang = true -> db !! cid = Some c ->
  exists c', (add_or_update_translation_term db cid lang term now).1 = <[cid := c']> db /\
    fields_kept c c' /\ translations c' = <[lang := lower term]> (translations c).
Proof.
  intros Hs Hc. unfold add_or_update_translation_term. rewrite Hs, Hc. simpl.
  eexists; split; [reflexivity|]. split; [repeat split|reflexivity].
Qed.

Lemma upsert_unsupported (db : Collection) (cid : nat) (lang term : string) (now : Timestamp) :
  in_supported_languages lang = false ->
  (add_or_update_translation_term db cid lang term now).1 = db.
Proof. intros Hs. unfold add_or_update_translation_term. rewrite Hs. reflexivity. Qed.

Lemma translate_and_add_term_found (llm : bool) (tr : string -> option string)
    (db : Collection) (cid : nat) (lang : string) (now : Timestamp) (c : Concept) :
  in_supported_languages lang = true -> db !! cid = Some c ->
  exists c', translate_and_add_term llm tr db cid lang now = <[cid := c']> db /\
    fields_kept c c' /\
    translations c' =
      match (if llm then tr lang else None) with
      | Some t => if String.eqb t EmptyString then translations c
                  else <[lang := lower t]> (translations c)
      | None => translations c
      end.
Proof.
  intros Hs Hc. unfold translate_and_add_term.
  assert (Hid : <[cid := c]> db = db) by (apply insert_id, Hc).
  destruct llm; simpl; [|exists c; split; [auto|split; [apply fields_kept_refl|reflexivity]]].
  destruct (tr lang) as [t|]; [|exists c; split; [auto|split; [apply fields_kept_refl|reflexivity]]].
  destruct (String.eqb t EmptyString); [exists c; split; [auto|split; [apply fields_kept_refl|reflexivity]]|].
  destruct (upsert_found db cid lang (lower t) now c Hs Hc) as (c' & E & Hk & Ht).
  exists c'. split; [exact E|]. split; [exact Hk|]. rewrite Ht, lower_idem. reflexivity.
Qed.

Lemma fold_translation_writes (f : Collection -> string -> Collection)
    (w : string -> option string) (cid : nat) (L : list string) :
  (forall d c lang, lang ∈ L -> d !! cid = Some c ->
     exists c', f d lang = <[cid := c']> d /\ fields_kept c c' /\
       translations c' = match w lang with
                         | Some v => <[lang := v]> (translations c)
                         | None => translations c
                         end) ->
  forall db c, db !! cid = Some c ->
  exists c', fold_left f L db = <[cid := c']> db /\ fields_kept c c' /\
    forall k, translations c' !! k =
      if bool_decide (k ∈ L)
      then match w k with Some v => Some v | None => translations c !! k end
      else translations c !! k.
Proof.
  induction L as [|a L IH]; intros Hf db c Hc; simpl.
  - exists c. split; [symmetry; apply insert_id, Hc|]. split; [apply fields_kept_refl|].
    intros k. reflexivity.
  - destruct (Hf db c a ltac:(left) Hc) as (c1 & E1 & Hk1 & Ht1).
    rewrite E1.
    destruct (IH (fun d c0 lang Hl => Hf d c0 lang ltac:(right; exact Hl))
                 (<[cid := c1]> db) c1 ltac:(apply lookup_insert_eq))
      as (c' & E & Hk & Ht).
    exists c'. rewrite E, insert_insert_eq. split; [reflexivity|].
    split; [eapply fields_kept_trans; eassumption|].
    intros k. rewrite Ht, Ht1.
    destruct (decide (k = a)) as [->|Hne].
    + rewrite (bool_decide_true (a ∈ a :: L)) by left.
      destruct (w a) as [v|]; [|destruct (bool_decide (a ∈ L)); reflexivity].
      rewrite lookup_insert_eq. destruct (bool_decide (a ∈ L)); reflexivity.
    + assert (Hiff : k ∈ a :: L <-> k ∈ L).
      { rewrite elem_of_cons. split; [intros [?|?]; [contradiction|assumption]|auto]. }
      rewrite (bool_decide_ext _ _ Hiff).
      destruct (w a) as [v|]; [rewrite lookup_insert_ne by congruence|]; reflexivity.
Qed.

Lemma languages_to_add_elem (E : gmap string string) (ol lang : string) :
  lang ∈ languages_to_add E ol <->
  lang ∈ SUPPORTED_LANGUAGES /\ lang <> "en" /\ lang <> ol /\ E !! lang = None.
Proof.
  unfold languages_to_add. rewrite list_elem_of_filter. tauto.
Qed.

Lemma in_supported_languages_iff (lang : string) :
  in_supported_languages lang = true <-> lang ∈ SUPPORTED_LANGUAGES.
Proof.
  unfold in_supported_languages. rewrite existsb_exists, list_elem_of_In.
  split; [intros (x & Hx & E); apply String.eqb_eq in E; subst; exact Hx|].
  intros Hx. exists lang. split; [exact Hx|apply String.eqb_refl].
Qed.

(* The phase for a concept the first read finds. *)
Lemma translation_phase_found (llm_available : bool) (translated : string -> option string)
    (db : Collection) (concept_id : nat) (english_term original_term original_language : string)
    (concept_created_now : bool) (now : Timestamp) (c : Concept) :
  db !! concept_id = Some c ->
  (concept_created_now = true \/ concept_valid c = true) ->
  let r := translation_phase llm_available translated db concept_id english_term
             original_term original_language concept_created_now now in
  r.2 = true /\
  exists c', r.1 = <[concept_id := c']> db /\ fields_kept c c' /\
    translations c' !! "en" = translations c !! "en" /\
    (original_language <> "en" -> in_supported_languages original_language = true ->
       (concept_created_now = true \/ translations c !! original_language <> Some original_term) ->
       translations c' !! original_language = Some (lower original_term)) /\
    (concept_created_now = false -> forall lang v, lang <> original_language ->
       translations c !! lang = Some v -> translations c' !! lang = Some v) /\
    (forall lang, lang <> "en" -> lang <> original_language ->
       in_supported_languages lang = true ->
       (concept_created_now = true \/ translations c !! lang = None) ->
       (forall t, llm_available = true -> translated lang = Some t -> t <> EmptyString ->
          translations c' !! lang = Some (lower t)) /\
       ((llm_available = false \/ translated lang = None \/ translated lang = Some EmptyString) ->
          translations c' !! lang = translations c !! lang)).
Proof.
  intros Hc Hex r. unfold r, translation_phase.
  set (E := if concept_created_now then {[ "en" := english_term ]} : gmap string string
            else translations c).
  assert (HE : (if concept_created_now then Some {[ "en" := english_term ]}
                else option_map translations (get_concept_by_id db concept_id)) = Some E).
  { unfold E. destruct concept_created_now; [reflexivity|].
    destruct Hex as [Hf|Hv]; [discriminate|].
    rewrite (proj2 (get_concept_by_id_some db concept_id c) (conj Hc Hv)). reflexivity. }
  rewrite HE. clear HE. simpl. split; [reflexivity|].
  set (ol := original_language).
  set (wr := negb (String.eqb ol "en") &&
             negb (bool_decide (E !! ol = Some original_term))).
  (* the original-language write *)
  assert (H1 : exists c1,
     (if wr then (add_or_update_translation_term db concept_id ol original_term now).1 else db)
       = <[concept_id := c1]> db /\ fields_kept c c1 /\
     translations c1 = if wr && in_supported_languages ol
                       then <[ol := lower original_term]> (translations c)
                       else translations c).
  { destruct wr; simpl; [|exists c; split; [symmetry; apply insert_id, Hc|split; [apply fields_kept_refl|reflexivity]]].
    destruct (in_supported_languages ol) eqn:Hs.
    - exact (upsert_found db concept_id ol original_term now c Hs Hc).
    - exists c. rewrite upsert_unsupported by exact Hs.
      split; [symmetry; apply insert_id, Hc|split; [apply fields_kept_refl|reflexivity]]. }
  destruct H1 as (c1 & E1 & Hk1 & Ht1). rewrite E1.
  set (L := languages_to_add E ol).
  set (w := fun lang : string =>
              match (if llm_available then translated lang else None) with
              | Some t => if String.eqb t EmptyString then None else Some (lower t)
              | None => None
              end).
  destruct (fold_translation_writes
              (fun d lang => translate_and_add_term llm_available translated d concept_id lang now)
              w concept_id L) with (db := <[concept_id := c1]> db) (c := c1)
    as (c' & E2 & Hk2 & Ht2).
  { intros d c0 lang Hl Hd.
    assert (Hs : in_supported_languages lang = true).
    { apply in_supported_languages_iff. apply languages_to_add_elem in Hl. tauto. }
    destruct (translate_and_add_term_found llm_available translated d concept_id lang now c0 Hs Hd)
      as (c2 & E3 & Hk3 & Ht3).
    exists c2. split; [exact E3|]. split; [exact Hk3|]. rewrite Ht3. unfold w.
    destruct (if llm_available then translated lang else None) as [t|]; [|reflexivity].
    destruct (String.eqb t EmptyString); reflexivity. }
  { apply lookup_insert_eq. }
  exists c'. rewrite E2, insert_insert_eq. split; [reflexivity|].
  split; [eapply fields_kept_trans; eassumption|].
  assert (Hen : "en" ∉ L).
  { intros Hl. apply languages_to_add_elem in Hl. tauto. }
  assert (Hol : ol ∉ L).
  { intros Hl. apply languages_to_add_elem in Hl. tauto. }
  split; [|split; [|split]].
  - rewrite Ht2, bool_decide_false by exact Hen. rewrite Ht1.
    destruct (wr && in_supported_languages ol) eqn:Hw; [|reflexivity].
    apply andb_true_iff in Hw as [Hw _]. unfold wr in Hw.
    apply andb_true_iff in Hw as [Hw _]. apply negb_true_iff, String.eqb_neq in Hw.
    rewrite lookup_insert_ne by congruence. reflexivity.
  - intros Hne Hs Hcase. rewrite Ht2, bool_decide_false by exact Hol. rewrite Ht1.
    assert (Hw : wr = true).
    { unfold wr. apply andb_true_iff. split.
      - apply negb_true_iff, String.eqb_neq. exact Hne.
      - apply negb_true_iff, bool_decide_eq_false. unfold E.
        destruct concept_created_now.
        + rewrite lookup_singleton_ne by congruence. discriminate.
        + destruct Hcase as [Hf|Hn]; [discriminate|exact Hn]. }
    rewrite Hw, Hs. simpl. apply lookup_insert_eq.
  - intros Hcr lang v Hne Hv.
    assert (Hnl : lang ∉ L).
    { intros Hl. apply languages_to_add_elem in Hl as (_ & _ & _ & HN).
      unfold E in HN. rewrite Hcr in HN. congruence. }
    rewrite Ht2, bool_decide_false by exact Hnl. rewrite Ht1.
    destruct (wr && in_supported_languages ol); [|exact Hv].
    rewrite lookup_insert_ne by congruence. exact Hv.
  - intros lang Hen' Hol' Hs Hnone.
    assert (Hl : lang ∈ L).
    { apply languages_to_add_elem. split; [apply in_supported_languages_iff, Hs|].
      split; [exact Hen'|]. split; [exact Hol'|].
      unfold E. destruct concept_created_now.
      - apply lookup_singleton_ne. congruence.
      - destruct Hnone as [Hf|Hn]; [discriminate|exact Hn]. }
    assert (Hc1 : translations c1 !! lang = translations c !! lang).
    { rewrite Ht1. destruct (wr && in_supported_languages ol); [|reflexivity].
      apply lookup_insert_ne. congruence. }
    rewrite Ht2, bool_decide_true by exact Hl. unfold w. split.
    + intros t Hllm Ht Htne. rewrite Hllm, Ht.
      destruct (String.eqb t EmptyString) eqn:Eq; [apply String.eqb_eq in Eq; contradiction|].
      reflexivity.
    + intros [Hllm|[Ht|Ht]].
      * rewrite Hllm. exact Hc1.
      * destruct llm_available; rewrite ?Ht; exact Hc1.
      * destruct llm_available; [rewrite Ht; simpl; exact Hc1|exact Hc1].
Qed.



Lemma concept_valid_iff (c : Concept) :
  concept_valid c = true <-> check_languages (translations c) = true /\ concept_bounds c.
Proof.
  unfold concept_valid, concept_bounds. rewrite !andb_true_iff, !Qle_bool_iff. tauto.
Qed.




Lemma decay_decision_active (s : Settings) (cutoff : Timestamp) (c : Concept) d :
  decay_decision s cutoff c = Some d -> status c = ACTIVE.
Proof.
  unfold decay_decision, decay_applies.
  destruct (status_eqb (status c) ACTIVE) eqn:E; [|discriminate].
  intros _. apply status_eqb_true, E.
Qed.

Lemma apply_confidence_decay_lookup (s : Settings) (db : Collection) (now : Timestamp) (i : nat) :
  (apply_confidence_decay s db now).1 !! i =
    match db !! i with
    | Some c =>
        Some (if CONFIDENCE_DECAY_ENABLED s then
                match decay_decision s (decay_cutoff s now) c with
                | Some (sc, st) => decayed_doc c sc st now
                | None => c
                end
              else c)
    | None => None
    end.
Proof.
  destruct (CONFIDENCE_DECAY_ENABLED s) eqn:En.
  2:{ unfold apply_confidence_decay. rewrite En. simpl. destruct (db !! i); reflexivity. }
  destruct (db !! i) as [c|] eqn:Hc.
  - destruct (decay_decision s (decay_cutoff s now) c) as [[sc st]|] eqn:Hd.
    + unfold apply_confidence_decay. rewrite En. simpl.
      rewrite (run_decay_tasks_in _ db now i sc st).
      * rewrite Hc. reflexivity.
      * apply decay_tasks_NoDup.
      * apply elem_of_decay_tasks. exists c. split; [exact Hc|].
        split; [eapply decay_decision_active; exact Hd|exact Hd].
    + exact (proj2 (apply_confidence_decay_no_task s db now i c Hc Hd)).
  - unfold apply_confidence_decay. rewrite En. simpl.
    rewrite run_decay_tasks_notin; [exact Hc|].
    intros Hin. apply list_elem_of_fmap in Hin as ([j d] & Hj & Hin). simpl in Hj. subst j.
    apply elem_of_decay_tasks in Hin as (c & Hc' & _). congruence.
Qed.

Lemma run_decay_tasks_count (tasks : list (nat * (Q * TranslationStatus)))
    (db : Collection) (now : Timestamp) :
  Forall (fun t => is_Some (db !! t.1)) tasks ->
  (run_decay_tasks db tasks now).2 = length tasks.
Proof.
  revert db. induction tasks as [|[i [sc st]] rest IH]; intros db Hall; [reflexivity|].
  apply Forall_cons in Hall as [[c Hc] Hrest]. simpl in Hc. simpl.
  unfold apply_time_decay_to_concept at 1. rewrite Hc.
  destruct (run_decay_tasks (<[i := decayed_doc c sc st now]> db) rest now) as [db2 n] eqn:Hr.
  simpl. f_equal.
  change n with (db2, n).2. rewrite <- Hr. apply IH.
  eapply Forall_impl; [exact Hrest|]. intros [j d] Hj. simpl in *.
  apply lookup_insert_is_Some'. right. exact Hj.
Qed.

Lemma decay_tasks_length (s : Settings) (db : Collection) (cutoff : Timestamp) :
  length (decay_tasks s db cutoff) =
  length (filter (fun ic : nat * Concept => is_Some (decay_decision s cutoff ic.2))
                 (map_to_list db)).
Proof.
  unfold decay_tasks, get_all_concepts_for_decay.
  induction (map_to_list db) as [|[i c] l IH]; [reflexivity|].
  destruct (decay_decision s cutoff c) as [d|] eqn:Hd.
  - rewrite filter_cons_True by (simpl; apply status_eqb_true; eapply decay_decision_active; exact Hd).
    rewrite (filter_cons_True (fun ic : nat * Concept => is_Some (decay_decision s cutoff ic.2)))
      by (simpl; rewrite Hd; eexists; reflexivity).
    simpl. rewrite Hd. rewrite <- IH. reflexivity.
  - rewrite (filter_cons_False (fun ic : nat * Concept => is_Some (decay_decision s cutoff ic.2)))
      by (simpl; rewrite Hd; intros [? ?]; discriminate).
    destruct (decide (status_eqb (status c) ACTIVE = true)).
    + rewrite filter_cons_True by exact e. simpl. rewrite Hd. exact IH.
    + rewrite filter_cons_False by exact n. exact IH.
Qed.

(** X14: with decay disabled the decay cycle returns 0 and writes nothing;
    with decay enabled it returns the number of stored concepts for which a
    decay write is queued. *)
Theorem apply_confidence_decay_count (s : Settings) (db : Collection) (now : Timestamp) :
  (CONFIDENCE_DECAY_ENABLED s = false -> apply_confidence_decay s db now = (db, 0%nat)) /\
  (CONFIDENCE_DECAY_ENABLED s = true ->
   (apply_confidence_decay s db now).2 =
   length (filter (fun ic : nat * Concept =>
                     is_Some (decay_decision s (decay_cutoff s now) ic.2))
                  (map_to_list db))).
Proof.
  split.
  - intros H. unfold apply_confidence_decay. rewrite H. reflexivity.
  - intros H. unfold apply_confidence_decay. rewrite H. simpl.
    rewrite run_decay_tasks_count; [apply decay_tasks_length|].
    apply Forall_forall. intros [i d] Hin. simpl.
    apply elem_of_decay_tasks in Hin as (c & Hc & _). rewrite Hc. eexists; reflexivity.
Qed.

(** X15: with valid settings the decay cycle keeps the set of stored ids,
    changes at most the score, status and [updated_at] of a concept, never
    raises a non-negative score nor makes it negative, and leaves inactive
    concepts unchanged. *)
Theorem apply_confidence_decay_effect (s : Settings) (db : Collection) (now : Timestamp) :
  settings_valid s ->
  forall i, (is_Some ((apply_confidence_decay s db now).1 !! i) <-> is_Some (db !! i)) /\
  forall c, db !! i = Some c -> 0 <= confidence_score c ->
  exists c', (apply_confidence_decay s db now).1 !! i = Some c' /\
    id c' = id c /\ translations c' = translations c /\ categories c' = categories c /\
    historical_yield c' = historical_yield c /\ usage_count c' = usage_count c /\
    last_used_at c' = last_used_at c /\
    last_positive_feedback_at c' = last_positive_feedback_at c /\
    created_at c' = created_at c /\
    0 <= confidence_score c' <= confidence_score c /\
    (status c = INACTIVE -> c' = c).
Proof.
  intros (_ & _ & _ & _ & Hf) i. rewrite apply_confidence_decay_lookup. split.
  - destruct (db !! i); split; intros [? ?]; try discriminate; eexists; reflexivity.
  - intros c Hc Hs. rewrite Hc. eexists. split; [reflexivity|].
    destruct (CONFIDENCE_DECAY_ENABLED s);
      [destruct (decay_decision s (decay_cutoff s now) c) as [[sc st]|] eqn:Hd|].
    2,3: repeat split; try reflexivity; lra.
    pose proof (decay_decision_active _ _ _ _ Hd) as Hact.
    unfold decay_decision in Hd.
    destruct (decay_applies (decay_cutoff s now) c); [|discriminate].
    destruct (_ || _); [|discriminate]. injection Hd as <- <-.
    simpl. repeat split; try reflexivity.
    + unfold decay_score. py_cases; nra.
    + unfold decay_score. py_cases; nra.
    + intros Hi. congruence.
Qed.


Lemma feedback_step_valid (s : Settings) (c : Concept) (m : Q) (now : Timestamp) :
  settings_valid s -> concept_valid c = true ->
  concept_valid (apply_update_doc c (feedback_update_payload s c m now) now) = true.
Proof.
  intros (_ & _ & Hf & _) Hv. apply concept_valid_iff in Hv as [Hl [Hsc Hy]].
  apply concept_valid_iff. simpl. split; [exact Hl|]. unfold concept_bounds. simpl. split.
  - unfold feedback_new_score. destruct (is_positive_feedback s m); py_cases; nra.
  - unfold feedback_new_yield. destruct (usage_count c); [|set (a := (_ / _))]; py_cases; lra.
Qed.



(* ------------------------------------------------------------------ *)
(** ** Instances of the further properties *)




Lemma add_or_update_concept_category_spec_witness :
  add_or_update_concept_category example_db 3 "respiratory" 5%Z = (example_db, false) /\
  exists c', add_or_update_concept_category example_db 7 "respiratory" 5%Z =
               (<[7%nat := c']> example_db, true) /\
             "respiratory" ∈ categories c' /\ "infectious" ∈ categories c'.
Proof.
  split.
  - apply (proj1 (add_or_update_concept_category_spec example_db 3 "respiratory" 5%Z)).
    reflexivity.
  - destruct (proj2 (add_or_update_concept_category_spec example_db 7 "respiratory" 5%Z)
                (fever_concept 7) eq_refl) as (c' & E & Hin & Hold & _).
    exists c'. split; [exact E|]. split; [exact Hin|]. apply Hold. left.
Defined.



Lemma get_active_keywords_spec_witness :
  (0 < 5)%nat /\ (length (get_active_keywords decay_db "en" 0 5) <= 5)%nat.
Proof.
  split; [lia|].
  exact (proj1 (get_active_keywords_spec decay_db "en" 0 5 ltac:(lia))).
Defined.

Lemma get_keywords_spec_witness :
  Forall2 (fun d it =>
      kd_translations d !! "en" = Some (kw_term it) /\ kw_term it <> EmptyString /\
      kw_language it = "en" /\ kw_concept_id it = kd_id d /\
      (forall e, kd_translations d !! "en" = Some e -> kw_concept_display_name it = e))
    (get_active_keywords decay_db "en" 0 5) (get_keywords decay_db "en" 5 0).
Proof. exact (get_keywords_spec decay_db "en" 5 0). Defined.






Lemma apply_confidence_decay_count_witness :
  (apply_confidence_decay settings_default decay_db 1000000%Z).2 =
  length (filter (fun ic : nat * Concept =>
                    is_Some (decay_decision settings_default
                               (decay_cutoff settings_default 1000000%Z) ic.2))
                 (map_to_list decay_db)).
Proof.
  apply (proj2 (apply_confidence_decay_count settings_default decay_db 1000000%Z)).
  reflexivity.
Defined.

Lemma apply_confidence_decay_effect_witness :
  exists c, decay_db !! 2%nat = Some c /\
  exists c', (apply_confidence_decay settings_default decay_db 1000000%Z).1 !! 2%nat = Some c' /\
             confidence_score c' <= confidence_score c.
Proof.
  destruct (decay_db !! 2%nat) as [c|] eqn:Hc; [|discriminate].
  exists c. split; [reflexivity|].
  destruct (proj2 (apply_confidence_decay_effect settings_default decay_db 1000000%Z
                     settings_default_valid 2) c Hc)
    as (c' & Hl & _ & _ & _ & _ & _ & _ & _ & _ & Hsc & _).
  - injection Hc as <-. vm_compute. discriminate.
  - exists c'. split; [exact Hl|exact (proj2 Hsc)].
Defined.

